(** * Lernplattform: the inference orchestration layer of [internal/llm]

    A shallow embedding of [internal/llm/provider.go] (the Ollama provider,
    its retry loop, its streaming decoder and the agent pool that analyses
    documents) and of the JSON helpers of [internal/llm/tutor.go].

    Conventions.
    - A Go [string] is a byte sequence: Rocq's [string], indexed by byte.
    - A Go [int] is a [Z]; [len] is [Z.of_nat] of a length.
    - A Go [error] is kept as its message ([err.Error()]); [nil] is [None].
    - What the code cannot decide by itself (the HTTP backend, the clock of
      the caller's context, [encoding/json], the Unicode tables behind
      [strings.ToLower], the [fmt.Sprintf] templates) is gathered in the
      record [Env]; every theorem holds for every [Env]. *)

From Stdlib Require Import ZArith Lia Bool Ascii String DecimalString.
From stdpp Require Import gmap strings list sorting.

Local Arguments String.append : simpl nomatch.
Local Open Scope string_scope.
Local Open Scope list_scope.
Local Open Scope Z_scope.

(** ** Go's [strings] package, as far as this code uses it *)

Module GoStrings.

(** [strings.HasPrefix s p]. *)
Definition HasPrefix (s p : string) : bool := String.prefix p s.

Fixpoint index_from (i : Z) (s sub : string) : Z :=
  if HasPrefix s sub then i
  else match s with
       | EmptyString => -1
       | String _ s' => index_from (i + 1) s' sub
       end.

(** [strings.Index s sub]: byte offset of the first occurrence, or -1. *)
Definition Index (s sub : string) : Z := index_from 0 s sub.

Fixpoint last_index_from (i : Z) (s sub : string) : Z :=
  match s with
  | EmptyString => if HasPrefix s sub then i else -1
  | String _ s' =>
      let r := last_index_from (i + 1) s' sub in
      if 0 <=? r then r else if HasPrefix s sub then i else -1
  end.

(** [strings.LastIndex s sub]: byte offset of the last occurrence, or -1. *)
Definition LastIndex (s sub : string) : Z := last_index_from 0 s sub.

(** [strings.Contains s sub] is [strings.Index(s, sub) >= 0]. *)
Definition Contains (s sub : string) : bool := 0 <=? Index s sub.

(** The slice expression [s[lo:hi]] for [0 <= lo <= hi <= len(s)]. *)
Definition slice (s : string) (lo hi : Z) : string :=
  String.substring (Z.to_nat lo) (Z.to_nat (hi - lo)) s.

(** [len(s)]. *)
Definition len (s : string) : Z := Z.of_nat (String.length s).

(** [s[:n]] guarded by [len(s) > n], the truncation idiom of the agents. *)
Definition truncate (n : Z) (s : string) : string :=
  if n <? len s then slice s 0 n else s.

End GoStrings.
Import GoStrings.

(** ** [internal/models] *)

Record Document := mkDocument {
  doc_ID : string;
  doc_Name : string;
  doc_Path : string;
  doc_Content : string;
  doc_PageCount : Z
}.

Record Topic := mkTopic {
  topic_ID : string;
  topic_StudyPlanID : string;
  topic_Name : string;
  topic_Description : string;
  topic_Content : string;
  topic_Order : Z;
  topic_Difficulty : Z;
  topic_EstMinutes : Z;
  topic_Status : string
}.

(** ** Results and errors *)

Definition error := string.

Inductive result (A : Type) : Type :=
| Ok (a : A)
| Err (e : error).
Arguments Ok {A} a.
Arguments Err {A} e.

(** ** [provider.go]: data *)

Record GenerateOptions := mkOptions {
  opt_Model : string;
  opt_System : string
}.

Record GenerateResponse := mkResponse {
  resp_Content : string;
  resp_Model : string;
  resp_Done : bool
}.

Record StreamChunk := mkChunk {
  chunk_Content : string;
  chunk_Done : bool;
  chunk_Error : option error
}.

Record OllamaProvider := mkProvider {
  baseURL : string;
  defaultModel : string
}.

Definition SetModel (o : OllamaProvider) (model : string) : OllamaProvider :=
  if decide (model = "") then o
  else {| baseURL := baseURL o; defaultModel := model |}.

Definition GetCurrentModel (o : OllamaProvider) : string := defaultModel o.

(** ** [provider.go]: what a call does, as a trace of events

    [EvAcquire] is the send on [ollamaSemaphore], [EvRelease] the receive;
    [EvSleep d] is [time.Sleep] of [d] seconds; [EvCallStart]/[EvCallEnd]
    bracket one HTTP request to the backend ([client.Do] up to the close of
    the response body). *)

Inductive event : Type :=
| EvAcquire
| EvRelease
| EvSleep (seconds : Z)
| EvCallStart (attempt : Z)
| EvCallEnd (attempt : Z).

Global Instance event_eq_dec : EqDecision event.
Proof. solve_decision. Defined.

(** What one attempt observes: the pair returned by [doGenerate], and the
    value [ctx.Err()] has when the loop reads it after that attempt. *)
Definition attempt_outcome : Type := result GenerateResponse * option error.

(** The test of line 234 of [generateWithRetry]. *)
Definition is_crash (e : error) : bool :=
  Contains e "terminated" || Contains e "500".

(** [model := o.defaultModel; if options != nil && options.Model != "" ...] *)
Definition select_model (o : OllamaProvider) (options : option GenerateOptions) : string :=
  match options with
  | Some opts => if decide (opt_Model opts = "") then defaultModel o else opt_Model opts
  | None => defaultModel o
  end.

(** The body of [for attempt := 1; attempt <= maxRetries; attempt++]; [n] is
    the number of iterations still allowed. The value is the pair the Go
    function returns, with the events of the iterations that ran. *)
Fixpoint retry_loop (doGenerate : Z -> attempt_outcome) (n : nat) (attempt : Z)
    (lastErr : option error)
  : (option GenerateResponse * option error) * list event :=
  match n with
  | O => ((None, lastErr), [])
  | S n' =>
      let backoff := if 1 <? attempt then [EvSleep (attempt * 2)] else [] in
      let call := [EvCallStart attempt; EvCallEnd attempt] in
      match doGenerate attempt with
      | (Ok resp, _) => ((Some resp, None), backoff ++ call)
      | (Err err, ctxErr) =>
          if is_crash err then
            let '(r, tr) := retry_loop doGenerate n' (attempt + 1) (Some err) in
            (r, backoff ++ call ++ [EvSleep 5] ++ tr)
          else
            match ctxErr with
            | Some ce => ((None, Some ce), backoff ++ call)
            | None =>
                let '(r, tr) := retry_loop doGenerate n' (attempt + 1) (Some err) in
                (r, backoff ++ call ++ tr)
            end
      end
  end.

(** [doGenerate model prompt attempt] is the outcome of the [attempt]-th
    request of this invocation. *)
Definition generateWithRetry (doGenerate : string -> string -> Z -> attempt_outcome)
    (o : OllamaProvider) (prompt : string) (options : option GenerateOptions)
    (maxRetries : Z)
  : (option GenerateResponse * option error) * list event :=
  let model := select_model o options in
  retry_loop (doGenerate model prompt) (Z.to_nat maxRetries) 1 None.

Definition Generate (doGenerate : string -> string -> Z -> attempt_outcome)
    (o : OllamaProvider) (prompt : string) (options : option GenerateOptions)
  : (option GenerateResponse * option error) * list event :=
  let '(r, tr) := generateWithRetry doGenerate o prompt options 3 in
  (r, [EvAcquire] ++ tr ++ [EvRelease]).

(** The number of requests a trace sends to the backend. *)
Fixpoint attempts (tr : list event) : nat :=
  match tr with
  | [] => O
  | EvCallStart _ :: tr' => S (attempts tr')
  | _ :: tr' => attempts tr'
  end.

(** The events strictly between the end of attempt [n] and the start of
    attempt [n + 1], when both are in the trace. *)
Fixpoint until_start (n : Z) (tr : list event) : option (list event) :=
  match tr with
  | [] => None
  | ev :: tr' =>
      if decide (ev = EvCallStart n) then Some []
      else match until_start n tr' with
           | Some evs => Some (ev :: evs)
           | None => None
           end
  end.

Fixpoint delay_between (n : Z) (tr : list event) : option (list event) :=
  match tr with
  | [] => None
  | ev :: tr' =>
      if decide (ev = EvCallEnd n) then until_start (n + 1) tr'
      else delay_between n tr'
  end.

(** *** The streaming decoder

    One element per call of [decoder.Decode(&chunk)] on the response body. *)
Inductive decode_step : Type :=
| Frame (response : string) (done : bool)
| DecodeEOF
| DecodeError (e : error).

(** The goroutine of [GenerateStream]: the chunks it sends on [ch] before it
    closes the channel. A body with nothing left to read yields [io.EOF]. *)
Fixpoint stream_loop (steps : list decode_step) : list StreamChunk :=
  match steps with
  | [] => []
  | DecodeEOF :: _ => []
  | DecodeError e :: _ => [mkChunk "" false (Some e)]
  | Frame r d :: rest =>
      mkChunk r d None :: (if d then [] else stream_loop rest)
  end.

(** [conn] is what [client.Do] gives: an error, or a body to decode. *)
Definition GenerateStream (conn : result (list decode_step))
  : result (list StreamChunk) * list event :=
  match conn with
  | Err e => (Err e, [EvCallStart 1; EvCallEnd 1])
  | Ok steps => (Ok (stream_loop steps), [EvCallStart 1; EvCallEnd 1])
  end.

Definition Chat (reply : result GenerateResponse)
  : result GenerateResponse * list event :=
  (reply, [EvCallStart 1; EvCallEnd 1]).

(** *** Goroutines sharing [ollamaSemaphore]

    [sem] is the number of tokens in the channel (capacity 1), [inflight]
    the number of requests the backend is serving, [threads] what each
    caller has still to do. *)
Record sys := mkSys {
  sem : nat;
  inflight : nat;
  threads : list (list event)
}.

(** Caller [i] performs its next event; a send on a full channel or a
    receive on an empty one blocks (the state does not change). *)
Definition step (s : sys) (i : nat) : sys :=
  match threads s !! i with
  | Some (ev :: rest) =>
      let ts := <[i := rest]> (threads s) in
      match ev with
      | EvAcquire =>
          if decide (sem s < 1)%nat then mkSys (S (sem s)) (inflight s) ts else s
      | EvRelease =>
          if decide (0 < sem s)%nat then mkSys (pred (sem s)) (inflight s) ts else s
      | EvSleep _ => mkSys (sem s) (inflight s) ts
      | EvCallStart _ => mkSys (sem s) (S (inflight s)) ts
      | EvCallEnd _ => mkSys (sem s) (pred (inflight s)) ts
      end
  | _ => s
  end.

Definition run (schedule : list nat) (s : sys) : sys := foldl step s schedule.

Definition start (ts : list (list event)) : sys := mkSys 0 0 ts.

(** ** [tutor.go]: the JSON helpers *)

Definition extractJSON (text : string) : string :=
  let start := Index text "{" in
  let end_ := LastIndex text "}" in
  if (start =? -1) || (end_ =? -1) || (end_ <=? start) then "{}"
  else slice text start (end_ + 1).

(** The struct [json.Unmarshal] fills in [parseTopicsFromResponse]. *)
Record RawTopic := mkRawTopic {
  raw_Name : string;
  raw_Description : string;
  raw_Difficulty : Z;
  raw_EstMinutes : Z
}.

Definition toTopic (t : RawTopic) : Topic :=
  {| topic_ID := ""; topic_StudyPlanID := ""; topic_Name := raw_Name t;
     topic_Description := raw_Description t; topic_Content := "";
     topic_Order := 0; topic_Difficulty := raw_Difficulty t;
     topic_EstMinutes := raw_EstMinutes t; topic_Status := "" |}.

(** [unmarshal] stands for [json.Unmarshal] into the topic-list shape. *)
Definition parseTopicsFromResponse (unmarshal : string -> result (list RawTopic))
    (response : string) : result (list Topic) :=
  let jsonStr := extractJSON response in
  match unmarshal jsonStr with
  | Err e => Err e
  | Ok raws => Ok (toTopic <$> raws)
  end.

(** ** [provider.go], second part: the agent pool *)

(** The collaborators of the pool. [backend k] is the backend as the [k]-th
    invocation of [Generate] finds it. *)
Record Env := mkEnv {
  ToLower : string -> string;
  backend : nat -> string -> string -> Z -> attempt_outcome;
  unmarshalTopics : string -> result (list RawTopic);
  unmarshalPriority : string -> result (list string);
  analyzePrompt : string -> string -> string;
  priorityPrompt : string -> string -> string
}.

Record ParallelAgentConfig := mkConfig {
  MaxWorkers : Z;
  FastModel : string
}.

(** The provider shared by the pool, and the requests sent so far: the
    model and the prompt of each invocation of [Generate]. *)
Record World := mkWorld {
  provider : OllamaProvider;
  history : list (string * string)
}.

Definition with_provider (w : World) (o : OllamaProvider) : World :=
  {| provider := o; history := history w |}.

(** A Go call either returns or panics. *)
Inductive exec (A : Type) : Type :=
| Returns (a : A)
| Panics (msg : string).
Arguments Returns {A} a.
Arguments Panics {A} msg.

(** The pair [(resp, err)] as the callers read it: [err] first. The pair
    of two nils is never returned by [Generate] (lemma [Generate_not_nil]). *)
Definition as_result (r : option GenerateResponse * option error)
  : result GenerateResponse :=
  match r with
  | (_, Some e) => Err e
  | (Some resp, None) => Ok resp
  | (None, None) => Err ""
  end.

(** [ap.provider.Generate(ctx, prompt, options)] *)
Definition ProviderGenerate (E : Env) (w : World) (prompt : string)
    (options : option GenerateOptions) : result GenerateResponse * World :=
  let o := provider w in
  let k := length (history w) in
  let '(r, _) := Generate (backend E k) o prompt options in
  (as_result r,
   {| provider := o; history := history w ++ [(select_model o options, prompt)] |}).

(** [s[lo:hi]] with Go's bounds check. *)
Definition slice_checked (s : string) (lo hi : Z) : option string :=
  if (0 <=? lo) && (lo <=? hi) && (hi <=? len s) then Some (slice s lo hi) else None.

Definition newline : string := String (ascii_of_nat 10) EmptyString.

(** [strings.Join]. *)
Fixpoint Join (elems : list string) (sep : string) : string :=
  match elems with
  | [] => ""
  | [x] => x
  | x :: rest => x +:+ sep +:+ Join rest sep
  end.

Definition deduplicateDocuments (docs : list Document) : list Document :=
  snd (foldl (fun '(seen, result) doc =>
                if default false ((seen : gmap string bool) !! doc_Name doc)
                then (seen, result)
                else (<[doc_Name doc := true]> seen, result ++ [doc]))
             (∅, []) docs).

Definition categorizeDocuments (E : Env) (docs : list Document)
  : list Document * list Document :=
  foldl (fun '(main, exams) doc =>
           let nameLower := ToLower E (doc_Name doc) in
           if Contains nameLower "klausur" || Contains nameLower "übung"
           then (main, exams ++ [doc])
           else (main ++ [doc], exams))
        ([], []) docs.

Definition deduplicateTopics (E : Env) (topics : list Topic) : list Topic :=
  snd (foldl (fun '(seen, result) t =>
                let key := ToLower E (topic_Name t) in
                if default false ((seen : gmap string bool) !! key)
                then (seen, result)
                else (<[key := true]> seen, result ++ [t]))
             (∅, []) topics).

Definition analyzeOneDocument (E : Env) (cfg : ParallelAgentConfig) (w : World)
    (doc : Document) : result (list Topic) * World :=
  let content := truncate 4000 (doc_Content doc) in
  let prompt := analyzePrompt E (doc_Name doc) content in
  let oldModel := GetCurrentModel (provider w) in
  let switch := bool_decide (FastModel cfg ≠ "") && bool_decide (FastModel cfg ≠ oldModel) in
  let w1 := if switch then with_provider w (SetModel (provider w) (FastModel cfg)) else w in
  let '(r, w2) :=
    ProviderGenerate E w1 prompt
      (Some (mkOptions "" "Du bist ein Lernassistent. Antworte kurz und nur im JSON-Format.")) in
  (* the deferred [SetModel(oldModel)] *)
  let w3 := if switch then with_provider w2 (SetModel (provider w2) oldModel) else w2 in
  match r with
  | Err e => (Err e, w3)
  | Ok resp => (parseTopicsFromResponse (unmarshalTopics E) (resp_Content resp), w3)
  end.

Definition analyzeDocumentsSequentially (E : Env) (cfg : ParallelAgentConfig)
    (w : World) (docs : list Document) : list Topic * World :=
  if decide (length docs = 0%nat) then ([], w)
  else
    let '(allTopics, successCount, w') :=
      foldl (fun '(allTopics, successCount, w) doc =>
               let '(r, w1) := analyzeOneDocument E cfg w doc in
               match r with
               | Err _ => (allTopics, successCount, w1)
               | Ok topics => (allTopics ++ topics, successCount + 1, w1)
               end)
            ([], 0, w) docs in
    (allTopics, w').

(** The [strings.Builder] loop over the exam documents. *)
Fixpoint collectExamContent (examContent : string) (examDocs : list Document) : string :=
  match examDocs with
  | [] => examContent
  | doc :: rest =>
      let content := truncate 2000 (doc_Content doc) in
      let examContent' := examContent +:+ content +:+ newline in
      if 10000 <? len examContent' then examContent'
      else collectExamContent examContent' rest
  end.

(** [priorityMap[strings.ToLower(name)] = i] for [i, name := range Priority]. *)
Fixpoint buildPriorityMap (E : Env) (i : Z) (names : list string)
    (m : gmap string Z) : gmap string Z :=
  match names with
  | [] => m
  | name :: rest => buildPriorityMap E (i + 1) rest (<[ToLower E name := i]> m)
  end.

(** [p, ok := priorityMap[strings.ToLower(t.Name)]; if !ok { p = 999 }] *)
Definition priorityOf (E : Env) (m : gmap string Z) (t : Topic) : Z :=
  match m !! ToLower E (topic_Name t) with
  | Some p => p
  | None => 999
  end.

(** The body of the inner loop at [(i, j)]. *)
Definition sort_step (prio : Topic -> Z) (i : nat) (l : list Topic) (j : nat)
  : list Topic :=
  match l !! i, l !! j with
  | Some ti, Some tj =>
      if prio tj <? prio ti then <[i := tj]> (<[j := ti]> l) else l
  | _, _ => l
  end.

(** [for j := i + 1; j < len(sortedTopics); j++] *)
Definition sort_inner (prio : Topic -> Z) (l : list Topic) (i : nat) : list Topic :=
  foldl (sort_step prio i) l (seq (S i) (length l - S i)).

(** [for i := 0; i < len(sortedTopics); i++] *)
Definition sortTopics (prio : Topic -> Z) (l : list Topic) : list Topic :=
  foldl (sort_inner prio) l (seq 0 (length l)).

(** Lines 736-764 of [prioritizeWithExams]. *)
Definition sortByPriority (E : Env) (ranking : list string) (topics : list Topic)
  : list Topic :=
  let priorityMap := buildPriorityMap E 0 ranking ∅ in
  sortTopics (priorityOf E priorityMap) topics.

Definition prioritizeWithExams (E : Env) (cfg : ParallelAgentConfig) (w : World)
    (topics : list Topic) (examDocs : list Document) : exec (list Topic) * World :=
  if bool_decide (length examDocs = 0%nat) || bool_decide (length topics = 0%nat)
  then (Returns topics, w)
  else
    let examContent := collectExamContent "" examDocs in
    let topicNames := topic_Name <$> topics in
    let prompt := priorityPrompt E (Join topicNames ", ") examContent in
    let oldModel := GetCurrentModel (provider w) in
    let switch := bool_decide (FastModel cfg ≠ "") in
    let w1 := if switch then with_provider w (SetModel (provider w) (FastModel cfg)) else w in
    let '(r, w2) :=
      ProviderGenerate E w1 prompt
        (Some (mkOptions "" "Du bist ein Prüfungsexperte. Antworte nur im JSON-Format.")) in
    (* the deferred [SetModel(oldModel)] runs on every exit, a panic too *)
    let w3 := if switch then with_provider w2 (SetModel (provider w2) oldModel) else w2 in
    match r with
    | Err _ => (Returns topics, w3)
    | Ok resp =>
        let jsonStr := resp_Content resp in
        let start := Index jsonStr "{" in
        let end_ := LastIndex jsonStr "}" in
        let sliced :=
          if negb (start =? -1) && negb (end_ =? -1)
          then slice_checked jsonStr start (end_ + 1)
          else Some jsonStr in
        match sliced with
        | None => (Panics "slice bounds out of range", w3)
        | Some jsonStr' =>
            match unmarshalPriority E jsonStr' with
            | Err _ => (Returns topics, w3)
            | Ok ranking => (Returns (sortByPriority E ranking topics), w3)
            end
        end
    end.

Definition AnalyzeDocumentsParallel (E : Env) (cfg : ParallelAgentConfig) (w : World)
    (documents : list Document) : exec (list Topic * option error) * World :=
  let uniqueDocs := deduplicateDocuments documents in
  let '(mainDocs, examDocs) := categorizeDocuments E uniqueDocs in
  let '(mainTopics, w1) := analyzeDocumentsSequentially E cfg w mainDocs in
  let '(ranked, w2) :=
    if bool_decide (0 < length examDocs)%nat && bool_decide (0 < length mainTopics)%nat
    then prioritizeWithExams E cfg w1 mainTopics examDocs
    else (Returns mainTopics, w1) in
  match ranked with
  | Panics msg => (Panics msg, w2)
  | Returns mainTopics' =>
      let finalTopics := deduplicateTopics E mainTopics' in
      (Returns (finalTopics, None), w2)
  end.

(** *** Classification of a failed attempt, as the loop reads it

    A failed attempt is retried when its message has the crash signature,
    or when the context reports no error after it. *)
Definition failed (o : attempt_outcome) : Prop :=
  exists e, fst o = Err e.

Definition transient (o : attempt_outcome) : Prop :=
  exists e, fst o = Err e /\ (is_crash e = true \/ snd o = None).

(** Backends used as concrete inputs. *)
Definition backend_cancelled : string -> string -> Z -> attempt_outcome :=
  fun _ _ _ => (Err "ollama-anfrage fehlgeschlagen: context canceled",
                Some "context canceled").

Definition backend_crash_cancelled : string -> string -> Z -> attempt_outcome :=
  fun _ _ attempt =>
    if attempt =? 1
    then (Err "ollama-fehler (500): runner stopped", Some "context canceled")
    else (Err "ollama-anfrage fehlgeschlagen: context canceled",
          Some "context canceled").

Definition backend_flaky : string -> string -> Z -> attempt_outcome :=
  fun _ _ attempt =>
    if attempt =? 1 then (Err "ollama-fehler (500): runner stopped", None)
    else if attempt =? 2 then (Err "connection refused", None)
    else (Ok (mkResponse "{}" "qwen2.5:7b" true), None).

Definition backend_down : string -> string -> Z -> attempt_outcome :=
  fun _ _ _ => (Err "connection refused", None).

Definition provider0 : OllamaProvider :=
  {| baseURL := "http://localhost:11434"; defaultModel := "qwen2.5:7b" |}.

(** The ASCII part of [strings.ToLower], for concrete inputs. *)
Definition lower_byte (c : ascii) : ascii :=
  let n := nat_of_ascii c in
  if (65 <=? n)%nat && (n <=? 90)%nat then ascii_of_nat (n + 32) else c.

Fixpoint ToLowerASCII (s : string) : string :=
  match s with
  | EmptyString => EmptyString
  | String c s' => String (lower_byte c) (ToLowerASCII s')
  end.

(** The loop shared by [deduplicateDocuments] and [deduplicateTopics],
    with the key left open. *)
Definition dedup_step {A} (key : A -> string)
  : gmap string bool * list A -> A -> gmap string bool * list A :=
  fun '(seen, result) x =>
    if default false (seen !! key x) then (seen, result)
    else (<[key x := true]> seen, result ++ [x]).

Definition dedup_loop {A} (key : A -> string) (l : list A) : list A :=
  snd (foldl (dedup_step key) (∅, []) l).

(** The body of the loop of [analyzeDocumentsSequentially]. *)
Definition analyze_step (E : Env) (cfg : ParallelAgentConfig)
  : list Topic * Z * World -> Document -> list Topic * Z * World :=
  fun '(allTopics, successCount, w) doc =>
    let '(r, w1) := analyzeOneDocument E cfg w doc in
    match r with
    | Err _ => (allTopics, successCount, w1)
    | Ok topics => (allTopics ++ topics, successCount + 1, w1)
    end.

Definition doc_named (name : string) : Document :=
  {| doc_ID := name; doc_Name := name; doc_Path := ""; doc_Content := "";
     doc_PageCount := 1 |}.

Definition topic_named (name : string) : Topic :=
  {| topic_ID := ""; topic_StudyPlanID := ""; topic_Name := name;
     topic_Description := ""; topic_Content := ""; topic_Order := 0;
     topic_Difficulty := 1; topic_EstMinutes := 30; topic_Status := "" |}.

(** "First occurrence wins, later duplicates are dropped, the order of the
    survivors is kept", for equality of [key]: an element is kept exactly
    when no element before it has its key, and it is kept in its place. *)
Definition keeps_first_occurrences {A} (key : A -> string)
    (dedup : list A -> list A) : Prop :=
  dedup [] = [] /\
  (forall l x,
      dedup (l ++ [x])
      = if bool_decide (key x ∈ key <$> l) then dedup l else dedup l ++ [x]) /\
  (forall l, dedup l `sublist_of` l) /\
  (forall l, NoDup (key <$> dedup l)).

(** An environment for concrete inputs: no backend reachable, no JSON
    decoded, ASCII lower-casing. *)
Definition env0 : Env :=
  {| ToLower := ToLowerASCII;
     backend := fun _ => backend_down;
     unmarshalTopics := fun _ => Err "invalid character";
     unmarshalPriority := fun _ => Err "invalid character";
     analyzePrompt := fun name content => name +:+ content;
     priorityPrompt := fun names content => names +:+ content |}.

(** The sort as it acts on the part of the slice from position [i] on.
    [select_min prio x rest] is one run of the inner loop with [x] at
    position [i] and [rest] behind it: what ends at position [i], and what
    is left behind it. [selection] is the outer loop. *)
Fixpoint select_min (prio : Topic -> Z) (x : Topic) (rest : list Topic)
  : Topic * list Topic :=
  match rest with
  | [] => (x, [])
  | y :: ys =>
      if prio y <? prio x
      then let '(m, r) := select_min prio y ys in (m, x :: r)
      else let '(m, r) := select_min prio x ys in (m, y :: r)
  end.

Fixpoint selection (prio : Topic -> Z) (n : nat) (l : list Topic) : list Topic :=
  match n, l with
  | S n', x :: rest =>
      let '(m, r) := select_min prio x rest in m :: selection prio n' r
  | _, _ => l
  end.

Definition config0 : ParallelAgentConfig :=
  {| MaxWorkers := 1; FastModel := "llama3.2:3b" |}.

Definition world0 : World := {| provider := provider0; history := [] |}.

(** A provider whose current model is the empty string. *)
Definition world_unnamed : World :=
  {| provider := {| baseURL := "http://localhost:11434"; defaultModel := "" |};
     history := [] |}.

(** *** Callers that go through the gate

    [gated p]: the caller holds the token, has no request open, and [p] is
    made of sleeps and whole requests followed by the release. *)
Fixpoint gated (p : list event) : bool :=
  match p with
  | [EvRelease] => true
  | EvSleep _ :: p' => gated p'
  | EvCallStart _ :: EvCallEnd _ :: p' => gated p'
  | _ => false
  end.

Inductive phase : Type := Waiting | Holding | Flying | Finished.

(** Where a caller of [Generate] stands, read off what it has still to do. *)
Definition phase_of (p : list event) : option phase :=
  match p with
  | [] => Some Finished
  | EvAcquire :: q => if gated q then Some Waiting else None
  | EvCallEnd _ :: q => if gated q then Some Flying else None
  | _ => if gated p then Some Holding else None
  end.

Definition holds (p : list event) : nat :=
  match phase_of p with
  | Some Holding | Some Flying => 1
  | _ => 0
  end.

Definition flies (p : list event) : nat :=
  match phase_of p with
  | Some Flying => 1
  | _ => 0
  end.

(** The state of the gate agrees with where the callers stand. *)
Definition gate_invariant (s : sys) : Prop :=
  Forall (fun p => is_Some (phase_of p)) (threads s) /\
  sem s = sum_list_with holds (threads s) /\
  inflight s = sum_list_with flies (threads s) /\
  (sem s <= 1)%nat.

(** An invocation of [Generate]: backend, provider, prompt, options. *)
Definition invocation : Type :=
  (string -> string -> Z -> attempt_outcome) * OllamaProvider * string
  * option GenerateOptions.

Definition Generate_events (c : invocation) : list event :=
  let '(doGenerate, o, prompt, options) := c in
  snd (Generate doGenerate o prompt options).

(** *** Measures of a trace *)

(** The seconds a trace spends in [time.Sleep]. *)
Fixpoint slept (tr : list event) : Z :=
  match tr with
  | [] => 0
  | EvSleep d :: tr' => d + slept tr'
  | _ :: tr' => slept tr'
  end.

(** The longest the loop can sleep in [n] iterations from attempt [a] on:
    the backoff of each attempt but the first, and a cool-down after each. *)
Fixpoint sleep_bound (n : nat) (a : Z) : Z :=
  match n with
  | O => 0
  | S n' => (if 1 <? a then a * 2 else 0) + 5 + sleep_bound n' (a + 1)
  end.

(** A backend that answers every request with a status 500. *)
Definition backend_crashing : string -> string -> Z -> attempt_outcome :=
  fun _ _ _ => (Err "ollama-fehler (500): runner stopped", None).

(** The test of [categorizeDocuments]: the name marks exam material. *)
Definition isExamName (E : Env) (doc : Document) : bool :=
  Contains (ToLower E (doc_Name doc)) "klausur"
  || Contains (ToLower E (doc_Name doc)) "übung".

(** A text of [n] bytes, and a document holding it, for concrete inputs. *)
Fixpoint filler (n : nat) : string :=
  match n with
  | O => EmptyString
  | S n' => String "a" (filler n')
  end.

Definition doc_of_size (n : nat) : Document :=
  {| doc_ID := ""; doc_Name := "Klausur"; doc_Path := ""; doc_Content := filler n;
     doc_PageCount := 1 |}.

(** The model the pool asks for: the fast model when one is configured,
    else the provider's current model. *)
Definition fast_or_current (cfg : ParallelAgentConfig) (o : OllamaProvider) : string :=
  if decide (FastModel cfg = "") then GetCurrentModel o else FastModel cfg.

(** The request the pool sends for one document. *)
Definition analysis_request (E : Env) (cfg : ParallelAgentConfig) (o : OllamaProvider)
    (doc : Document) : string * string :=
  (fast_or_current cfg o,
   analyzePrompt E (doc_Name doc) (truncate 4000 (doc_Content doc))).

(** An environment whose backend answers every request with [content],
    whose topic decoder yields three topics, two of them with names equal up
    to case, and whose ranking decoder yields one name. *)
Definition env_answering (content : string) : Env :=
  {| ToLower := ToLowerASCII;
     backend := fun _ _ _ _ => (Ok (mkResponse content "llama3.2:3b" true), None);
     unmarshalTopics := fun _ =>
       Ok [mkRawTopic "Folgen" "" 2 30; mkRawTopic "folgen" "" 2 30;
           mkRawTopic "Reihen" "" 3 45];
     unmarshalPriority := fun _ => Ok ["reihen"];
     analyzePrompt := fun name content => name +:+ content;
     priorityPrompt := fun names content => names +:+ content |}.

(** ** [provider.go]: one request, and the construction of the provider *)

(** [%d] of [fmt.Sprintf]. *)
Definition itoa (z : Z) : string := NilZero.string_of_int (Z.to_int z).

(** What the HTTP layer gives to [doGenerate]: the request could not be
    built; [client.Do] failed; or a reply came, with its status, its body as
    read by [io.ReadAll], and what [json.Decoder] makes of that body as
    (response, model, done). *)
Inductive http_outcome : Type :=
| RequestError (e : error)
| NetworkError (e : error)
| HttpReply (status : Z) (body : string) (decoded : result (string * string * bool)).

Definition doGenerate (outcome : http_outcome) : result GenerateResponse :=
  match outcome with
  | RequestError e => Err e
  | NetworkError e => Err ("ollama-anfrage fehlgeschlagen: " +:+ e)
  | HttpReply status body decoded =>
      if negb (status =? 200)
      then Err ("ollama-fehler (" +:+ itoa status +:+ "): " +:+ body)
      else match decoded with
           | Err e => Err e
           | Ok (response, model, done) => Ok (mkResponse response model done)
           end
  end.

Record ModelInfo := mkModelInfo {
  mi_Name : string;
  mi_Size : Z
}.

(** The loop [for _, m := range models { if m.Name == name { found = true; break } }]. *)
Fixpoint model_listed (models : list ModelInfo) (name : string) : bool :=
  match models with
  | [] => false
  | m :: rest => if decide (mi_Name m = name) then true else model_listed rest name
  end.

(** [strings.HasSuffix] and [strings.TrimSuffix]. *)
Definition HasSuffix (s suffix : string) : bool :=
  (len suffix <=? len s)
  && String.eqb (slice s (len s - len suffix) (len s)) suffix.

Definition TrimSuffix (s suffix : string) : string :=
  if HasSuffix s suffix then slice s 0 (len s - len suffix) else s.

(** [listing] is what [provider.GetModels] returns during construction. *)
Definition NewOllamaProvider (baseURL defaultModel : string)
    (listing : result (list ModelInfo)) : OllamaProvider :=
  let baseURL := if decide (baseURL = "") then "http://localhost:11434" else baseURL in
  let defaultModel := if decide (defaultModel = "") then "qwen2.5:7b" else defaultModel in
  let provider := {| baseURL := TrimSuffix baseURL "/"; defaultModel := defaultModel |} in
  match listing with
  | Ok (m :: rest) =>
      if model_listed (m :: rest) defaultModel then provider
      else {| baseURL := TrimSuffix baseURL "/"; defaultModel := mi_Name m |}
  | _ => provider
  end.

(** ** [storage.go]: the handlers that drive the provider *)

(** [Handler.SetModel]: the decoded request body, the listing of
    [GetModels], the provider and [config.DefaultModel]; the HTTP status
    written, and the provider and the configured model afterwards. *)
Definition Handler_SetModel (req : result string) (listing : result (list ModelInfo))
    (o : OllamaProvider) (configModel : string) : Z * OllamaProvider * string :=
  match req with
  | Err _ => (400, o, configModel)
  | Ok model =>
      if decide (model = "") then (400, o, configModel)
      else match listing with
           | Err _ => (503, o, configModel)
           | Ok models =>
               if model_listed models model
               then (200, SetModel o model, model)
               else (400, o, configModel)
           end
  end.

(** What [Handler.ChatStream] writes on the web socket. *)
Inductive ws_message : Type :=
| MsgError (e : error)
| MsgContent (content : string) (done : bool).

(** [for chunk := range chunks { ... }] *)
Fixpoint forward_chunks (chunks : list StreamChunk) : list ws_message :=
  match chunks with
  | [] => []
  | chunk :: rest =>
      match chunk_Error chunk with
      | Some e => [MsgError e]
      | None => MsgContent (chunk_Content chunk) (chunk_Done chunk) :: forward_chunks rest
      end
  end.

(** The part of [Handler.ChatStream] after the request is read. *)
Definition ChatStream (conn : result (list decode_step)) : list ws_message :=
  match fst (GenerateStream conn) with
  | Err e => [MsgError e]
  | Ok chunks => forward_chunks chunks
  end.

(** ** [tutor.go]: the tutor *)

Record Question := mkQuestion {
  q_ID : string;
  q_TopicID : string;
  q_Question : string;
  q_ExpectedAnswer : string;
  q_Hints : list string;
  q_Difficulty : Z;
  q_Type : string;
  q_Options : list string;
  q_UserAnswer : string;
  q_Feedback : string
}.

Record RawQuestion := mkRawQuestion {
  rq_Question : string;
  rq_ExpectedAnswer : string;
  rq_Hints : list string;
  rq_Type : string
}.

Record StudyPlan := mkStudyPlan {
  plan_ID : string;
  plan_Name : string;
  plan_TotalMinutes : Z;
  plan_Topics : list Topic;
  plan_Status : string
}.

(** What the tutor needs beyond the pool's collaborators. [clock i] is
    [time.Now().UnixNano()] as read in iteration [i] of a loop. *)
Record TutorEnv := mkTutorEnv {
  tutor_Env : Env;
  TrimSpace : string -> string;
  clock : nat -> Z;
  unmarshalQuestions : string -> result (list RawQuestion);
  unmarshalEvaluation : string -> result (bool * string);
  evaluatePrompt : string -> string -> string -> string;
  tutorAnalyzePrompt : string -> string
}.

Definition shortened_marker : string := newline +:+ "[... gekürzt ...]".

Definition limitContent (content : string) (maxLen : Z) : exec string :=
  if len content <=? maxLen then Returns content
  else match slice_checked content 0 maxLen with
       | Some head => Returns (head +:+ shortened_marker)
       | None => Panics "slice bounds out of range"
       end.

Definition parseQuestionsFromResponse (T : TutorEnv) (response topicID : string)
    (difficulty : Z) : result (list Question) :=
  let jsonStr := extractJSON response in
  match unmarshalQuestions T jsonStr with
  | Err e => Err e
  | Ok raws =>
      Ok (imap (fun i q =>
                  let qType := if decide (rq_Type q = "") then "open" else rq_Type q in
                  {| q_ID := "q_" +:+ itoa (clock T i) +:+ "_" +:+ itoa (Z.of_nat i);
                     q_TopicID := topicID;
                     q_Question := rq_Question q;
                     q_ExpectedAnswer := rq_ExpectedAnswer q;
                     q_Hints := rq_Hints q;
                     q_Difficulty := difficulty;
                     q_Type := qType;
                     q_Options := [];
                     q_UserAnswer := "";
                     q_Feedback := "" |})
               raws)
  end.

(** The triple [(bool, string, error)] of [EvaluateAnswer], and the world. *)
Definition EvaluateAnswer (T : TutorEnv) (w : World) (question : Question)
    (userAnswer documentContent : string) : (bool * string * option error) * World :=
  if len (TrimSpace T userAnswer) <? 3
  then ((false, "💡 Du hast keine richtige Antwort eingegeben. Versuch es nochmal!", None), w)
  else
    let prompt :=
      evaluatePrompt T (q_Question question) (q_ExpectedAnswer question) userAnswer in
    let '(r, w') :=
      ProviderGenerate (tutor_Env T) w prompt
        (Some (mkOptions ""
           "Du bist ein FAIRER Prüfer. Akzeptiere Antworten wenn die Kernidee stimmt. ABER: Leere, zu kurze oder völlig falsche Antworten sind FALSCH. Tippfehler ignorieren. JSON-Format.")) in
    match r with
    | Err e => ((false, "", Some e), w')
    | Ok resp =>
        let jsonStr := extractJSON (resp_Content resp) in
        match unmarshalEvaluation T jsonStr with
        | Err _ =>
            ((Contains (ToLower (tutor_Env T) (resp_Content resp)) "richtig",
              resp_Content resp, None), w')
        | Ok (isCorrect, feedback) => ((isCorrect, feedback, None), w')
        end
    end.

(** Go's [int] on a 64-bit platform: addition wraps around. *)
Definition wrap_int (z : Z) : Z := (z + 2 ^ 63) mod 2 ^ 64 - 2 ^ 63.

(** Integer division: truncated, and a run-time panic on a zero divisor. *)
Definition int_div (a b : Z) : exec Z :=
  if b =? 0 then Panics "integer divide by zero" else Returns (wrap_int (Z.quot a b)).

(** [planID], [planName] and [topicID i] stand for the three [fmt.Sprintf]
    of clock readings and of the exam date. [days] is
    [int(time.Until(examDate).Hours() / 24)]. The loop writes into the
    caller's slice; the list returned in the plan is that slice. *)
Definition CreateStudyPlan (planID planName : string) (topicID : nat -> string)
    (days : Z) (topics : list Topic) : exec (StudyPlan * option error) :=
  let daysUntilExam := if days <? 1 then 1 else days in
  let totalMinutes :=
    foldl (fun total topic => wrap_int (total + topic_EstMinutes topic)) 0 topics in
  match int_div totalMinutes daysUntilExam with
  | Panics msg => Panics msg
  | Returns minutesPerDay =>
      let minutesPerDay := if minutesPerDay <? 30 then 30 else minutesPerDay in
      let topics' :=
        imap (fun i t =>
                {| topic_ID := topicID i; topic_StudyPlanID := planID;
                   topic_Name := topic_Name t; topic_Description := topic_Description t;
                   topic_Content := topic_Content t; topic_Order := Z.of_nat i + 1;
                   topic_Difficulty := topic_Difficulty t;
                   topic_EstMinutes := topic_EstMinutes t; topic_Status := "pending" |})
             topics in
      Returns ({| plan_ID := planID; plan_Name := planName;
                  plan_TotalMinutes := totalMinutes;
                  plan_Topics := topics'; plan_Status := "active" |}, None)
  end.

(** The budget per document of the tutor's own analysis. *)
Definition charsPerDoc (n : Z) : Z :=
  let c := Z.quot 30000 (Z.max n 1) in
  let c := if 8000 <? c then 8000 else c in
  if c <? 2000 then 2000 else c.

(** The [strings.Builder] loop of [Tutor.AnalyzeDocuments]. *)
Fixpoint combineContents (perDoc : Z) (allContent : string) (docs : list Document)
  : string :=
  match docs with
  | [] => allContent
  | doc :: rest =>
      let header := newline +:+ "=== Dokument: " +:+ doc_Name doc +:+ " ===" +:+ newline in
      let content :=
        if perDoc <? len (doc_Content doc)
        then slice (doc_Content doc) 0 perDoc +:+ shortened_marker
        else doc_Content doc in
      let allContent' := allContent +:+ header +:+ content in
      if 30000 <? len allContent' then allContent'
      else combineContents perDoc allContent' rest
  end.

(** [Tutor.AnalyzeDocuments]; [agentPool] is [None] for a nil pool. *)
Definition Tutor_AnalyzeDocuments (T : TutorEnv) (useAgents : bool)
    (agentPool : option ParallelAgentConfig) (w : World) (documents : list Document)
  : exec (list Topic * option error) * World :=
  match useAgents, agentPool with
  | true, Some cfg => AnalyzeDocumentsParallel (tutor_Env T) cfg w documents
  | _, _ =>
      let uniqueDocs := deduplicateDocuments documents in
      let '(mainDocs, otherDocs) := categorizeDocuments (tutor_Env T) uniqueDocs in
      let docsToAnalyze :=
        if decide (length mainDocs = 0%nat) then uniqueDocs else mainDocs in
      let perDoc := charsPerDoc (Z.of_nat (length docsToAnalyze)) in
      let prompt := tutorAnalyzePrompt T (combineContents perDoc "" docsToAnalyze) in
      let '(r, w') :=
        ProviderGenerate (tutor_Env T) w prompt
          (Some (mkOptions ""
             "Du bist ein erfahrener Dozent, der Lernmaterialien analysiert und strukturiert. Antworte immer auf Deutsch und nur im angeforderten JSON-Format.")) in
      match r with
      | Err e => (Returns ([], Some e), w')
      | Ok resp =>
          match parseTopicsFromResponse (unmarshalTopics (tutor_Env T)) (resp_Content resp) with
          | Err e => (Returns ([], Some ("konnte Themen nicht parsen: " +:+ e)), w')
          | Ok topics => (Returns (topics, None), w')
          end
      end
  end.

(** What the loop of [Tutor.AnalyzeDocuments] writes for one document: the
    header line and the document's text, cut to the budget. *)
Definition doc_section (perDoc : Z) (doc : Document) : string :=
  (newline +:+ "=== Dokument: " +:+ doc_Name doc +:+ " ===" +:+ newline)
  +:+ (if perDoc <? len (doc_Content doc)
       then slice (doc_Content doc) 0 perDoc +:+ shortened_marker
       else doc_Content doc).

Definition doc_sections (perDoc : Z) (docs : list Document) : string :=
  foldr (fun doc rest => doc_section perDoc doc +:+ rest) "" docs.

(** The options of the tutor's own analysis request. *)
Definition tutorAnalyzeOptions : option GenerateOptions :=
  Some (mkOptions ""
    "Du bist ein erfahrener Dozent, der Lernmaterialien analysiert und strukturiert. Antworte immer auf Deutsch und nur im angeforderten JSON-Format.").

(** A document with a name and a text, for concrete inputs. *)
Definition doc_with (name content : string) : Document :=
  {| doc_ID := ""; doc_Name := name; doc_Path := ""; doc_Content := content;
     doc_PageCount := 1 |}.

(** A tutor environment for concrete inputs. *)
Definition tutor0 : TutorEnv :=
  {| tutor_Env := env0;
     TrimSpace := fun s => s;
     clock := fun i => 1700000000 + Z.of_nat i;
     unmarshalQuestions := fun _ => Ok [mkRawQuestion "Was ist eine Folge?" "Eine Abbildung" [] ""];
     unmarshalEvaluation := fun _ => Err "invalid character";
     evaluatePrompt := fun q e a => q +:+ e +:+ a;
     tutorAnalyzePrompt := fun c => c |}.

(** *** The ranking call and its extraction

    [rankingCall] is what [ap.provider.Generate] returns for the ranking
    prompt in [prioritizeWithExams], the fast model being selected when one
    is configured. *)
Definition rankingCall (E : Env) (cfg : ParallelAgentConfig) (w : World)
    (topics : list Topic) (examDocs : list Document) : result GenerateResponse :=
  let prompt :=
    priorityPrompt E (Join (topic_Name <$> topics) ", ") (collectExamContent "" examDocs) in
  let w1 := if bool_decide (FastModel cfg ≠ "")
            then with_provider w (SetModel (provider w) (FastModel cfg)) else w in
  fst (ProviderGenerate E w1 prompt
         (Some (mkOptions "" "Du bist ein Prüfungsexperte. Antworte nur im JSON-Format."))).

(** The extraction written out in [prioritizeWithExams]: the text from the
    first opening brace to the last closing brace when both are there, the
    whole text otherwise. [None] is the run-time panic of the slice
    expression [jsonStr[start : end+1]]. *)
Definition rankingPayload (content : string) : option string :=
  let start := Index content "{" in
  let end_ := LastIndex content "}" in
  if negb (start =? -1) && negb (end_ =? -1)
  then slice_checked content start (end_ + 1)
  else Some content.

(** *** Replies and decoders for concrete inputs

    JSON texts as a backend sends them, and what [encoding/json] makes of
    the texts used below: the empty object and an object with other keys
    leave the target at its zero value; a text that is not JSON is an
    error. *)
Definition quoted (s : string) : string :=
  String (ascii_of_nat 34) s +:+ String (ascii_of_nat 34) "".

Definition topicsJSON : string :=
  "{" +:+ quoted "topics" +:+ ":[{" +:+ quoted "name" +:+ ":" +:+ quoted "Folgen"
  +:+ "," +:+ quoted "description" +:+ ":" +:+ quoted "" +:+ ","
  +:+ quoted "difficulty" +:+ ":2," +:+ quoted "est_minutes" +:+ ":30}]}".

Definition rankingJSON : string :=
  "{" +:+ quoted "priority" +:+ ":[" +:+ quoted "integrale" +:+ "]}".

Definition evaluationJSON : string :=
  "{" +:+ quoted "is_correct" +:+ ":true," +:+ quoted "feedback" +:+ ":"
  +:+ quoted "Richtig!" +:+ "}".

Definition is_known_object (s : string) : bool :=
  String.eqb s "{}" || String.eqb s topicsJSON || String.eqb s rankingJSON
  || String.eqb s evaluationJSON.

Definition decodeTopics (s : string) : result (list RawTopic) :=
  if String.eqb s topicsJSON then Ok [mkRawTopic "Folgen" "" 2 30]
  else if is_known_object s then Ok []
  else Err "invalid character".

Definition decodePriority (s : string) : result (list string) :=
  if String.eqb s rankingJSON then Ok ["integrale"]
  else if is_known_object s then Ok []
  else Err "invalid character".

Definition decodeQuestions (s : string) : result (list RawQuestion) :=
  if is_known_object s then Ok [] else Err "invalid character".

Definition decodeEvaluation (s : string) : result (bool * string) :=
  if String.eqb s evaluationJSON then Ok (true, "Richtig!")
  else if is_known_object s then Ok (false, "")
  else Err "invalid character".

(** A backend that answers the first attempt of its [k]-th invocation with
    [reply k], behind these decoders. *)
Definition env_replying (reply : nat -> string) : Env :=
  {| ToLower := ToLowerASCII;
     backend := fun k _ _ _ => (Ok (mkResponse (reply k) "llama3.2:3b" true), None);
     unmarshalTopics := decodeTopics;
     unmarshalPriority := decodePriority;
     analyzePrompt := fun name content => name +:+ content;
     priorityPrompt := fun names content => names +:+ content |}.

(** The backend as [doGenerate] makes it from what the HTTP layer gives
    to attempt [a], with the context's error as read after that attempt. *)
Definition backend_of (http : Z -> http_outcome) (ctx : Z -> option error)
  : string -> string -> Z -> attempt_outcome :=
  fun _ _ attempt => (doGenerate (http attempt), ctx attempt).

(** [client.Do] is reached unless the request could not be built. *)
Definition sends_request (outcome : http_outcome) : bool :=
  match outcome with
  | RequestError _ => false
  | _ => true
  end.

(** The number of requests that reach [client.Do] in a trace. *)
Fixpoint requests (http : Z -> http_outcome) (tr : list event) : nat :=
  match tr with
  | [] => O
  | EvCallStart a :: tr' =>
      if sends_request (http a) then S (requests http tr') else requests http tr'
  | _ :: tr' => requests http tr'
  end.

(** A backend that answers each attempt with the given status and body,
    the context still live. *)
Definition backend_status (status : Z) (body : string)
  : string -> string -> Z -> attempt_outcome :=
  fun _ _ _ => (doGenerate (HttpReply status body (Err "EOF")), None).

(** A tutor whose backend answers every request with [content]. *)
Definition tutor_answering (content : string) : TutorEnv :=
  {| tutor_Env := env_replying (fun _ => content);
     TrimSpace := fun s => s;
     clock := fun i => 1700000000 + Z.of_nat i;
     unmarshalQuestions := decodeQuestions;
     unmarshalEvaluation := decodeEvaluation;
     evaluatePrompt := fun q e a => q +:+ e +:+ a;
     tutorAnalyzePrompt := fun c => c |}.

Definition question0 : Question :=
  {| q_ID := "q_1"; q_TopicID := "topic_1"; q_Question := "Was ist eine Folge?";
     q_ExpectedAnswer := "Eine Abbildung von N nach R"; q_Hints := [];
     q_Difficulty := 2; q_Type := "open"; q_Options := []; q_UserAnswer := "";
     q_Feedback := "" |}.

(** * Properties *)

(** ** Strings *)

Section SingleByte.
Variable c : ascii.
Local Abbreviation needle := (String c EmptyString).

Lemma HasPrefix_cons a s : HasPrefix (String a s) needle = bool_decide (c = a).
Proof.
  unfold HasPrefix. simpl.
  destruct (ascii_dec c a) as [->|Hne].
  - rewrite bool_decide_eq_true_2 by done. by destruct s.
  - by rewrite bool_decide_eq_false_2.
Qed.

Lemma HasPrefix_nil : HasPrefix EmptyString needle = false.
Proof. reflexivity. Qed.

Lemma index_from_shift s : forall i,
  (index_from i s needle = -1 /\ index_from 0 s needle = -1) \/
  (exists k, 0 <= k /\ index_from 0 s needle = k /\ index_from i s needle = i + k).
Proof.
  induction s as [|a s IH]; intros i.
  - left. by cbn.
  - cbn [index_from]. rewrite HasPrefix_cons. case_bool_decide.
    + right. exists 0. lia.
    + destruct (IH (i + 1)) as [[Hi H0]|(k & Hk & H0 & Hi)];
        destruct (IH (0 + 1)) as [[Hi' H0']|(k' & Hk' & H0' & Hi')]; try lia.
      right. exists (1 + k). lia.
Qed.

Lemma Contains_nil : Contains EmptyString needle = false.
Proof. reflexivity. Qed.

Lemma Contains_cons a s :
  Contains (String a s) needle = bool_decide (c = a) || Contains s needle.
Proof.
  unfold Contains, Index. cbn [index_from]. rewrite HasPrefix_cons.
  case_bool_decide; [done|]. cbn [orb].
  destruct (index_from_shift s (0 + 1)) as [[Hi H0]|(k & Hk & H0 & Hi)].
  - rewrite Hi, H0. done.
  - rewrite Hi, H0. apply eq_trans with true; [|symmetry]; apply Z.leb_le; lia.
Qed.

Lemma Index_absent s : Contains s needle = false -> Index s needle = -1.
Proof.
  unfold Contains. intros H. apply Z.leb_gt in H.
  destruct (index_from_shift s 0) as [[Hi _]|(k & Hk & H0 & _)]; [done|].
  unfold Index in *. lia.
Qed.

(** The first occurrence: nothing equal to [c] stands before it. *)
Lemma Index_first pre rest :
  Contains pre needle = false ->
  Index (pre +:+ String c rest) needle = len pre.
Proof.
  induction pre as [|a pre IH]; intros Hpre.
  - unfold Index. cbn [String.append index_from].
    rewrite HasPrefix_cons, bool_decide_eq_true_2; done.
  - rewrite Contains_cons in Hpre. apply orb_false_iff in Hpre as [Ha Hpre].
    apply bool_decide_eq_false in Ha. specialize (IH Hpre).
    unfold Index in *. cbn [String.append index_from].
    rewrite HasPrefix_cons, bool_decide_eq_false_2 by done.
    destruct (index_from_shift (pre +:+ String c rest) (0 + 1))
      as [[Hi H0]|(k & Hk & H0 & Hi)].
    + unfold len in IH. lia.
    + rewrite Hi. unfold len in *. cbn [String.length]. lia.
Qed.

Lemma last_index_from_absent s : forall i,
  Contains s needle = false -> last_index_from i s needle = -1.
Proof.
  induction s as [|a s IH]; intros i Hs; [done|].
  rewrite Contains_cons in Hs. apply orb_false_iff in Hs as [Ha Hs].
  cbn [last_index_from]. rewrite (IH _ Hs), HasPrefix_cons, Ha. done.
Qed.

Lemma LastIndex_absent s : Contains s needle = false -> LastIndex s needle = -1.
Proof. apply last_index_from_absent. Qed.

(** The last occurrence: nothing equal to [c] stands after it. *)
Lemma last_index_from_last x post : forall i,
  0 <= i ->
  Contains post needle = false ->
  last_index_from i (x +:+ String c post) needle = i + len x.
Proof.
  induction x as [|a x IH]; intros i Hi Hpost.
  - cbn [String.append last_index_from].
    rewrite (last_index_from_absent _ _ Hpost), HasPrefix_cons.
    rewrite bool_decide_eq_true_2 by done. unfold len. cbn. lia.
  - cbn [String.append last_index_from]. rewrite IH by (done || lia).
    unfold len. cbn [String.length].
    destruct (0 <=? _) eqn:Hle; [lia|]. apply Z.leb_gt in Hle. lia.
Qed.

Lemma LastIndex_last x post :
  Contains post needle = false ->
  LastIndex (x +:+ String c post) needle = len x.
Proof. intros H. unfold LastIndex. rewrite last_index_from_last; [lia|lia|done]. Qed.

End SingleByte.

Lemma substring_skip pre s n :
  String.substring (String.length pre) n (pre +:+ s) = String.substring 0 n s.
Proof. induction pre as [|a pre IH]; [done|]. cbn. apply IH. Qed.

Lemma substring_take a b :
  String.substring 0 (String.length a) (a +:+ b) = a.
Proof.
  induction a as [|x a IH]; cbn.
  - by destruct b.
  - by rewrite IH.
Qed.

Lemma append_length a b :
  String.length (a +:+ b) = (String.length a + String.length b)%nat.
Proof. induction a as [|x a IH]; cbn; [done|]. by rewrite IH. Qed.

Lemma append_assoc a b d : (a +:+ b) +:+ d = a +:+ (b +:+ d).
Proof. induction a as [|x a IH]; cbn; [done|]. by rewrite IH. Qed.

(** ** The structured extractor *)

Lemma extractJSON_payload pre mid post :
  Contains pre "{" = false ->
  Contains post "}" = false ->
  extractJSON (pre +:+ "{" +:+ mid +:+ "}" +:+ post) = "{" +:+ mid +:+ "}".
Proof.
  intros Hpre Hpost. unfold extractJSON.
  assert (Hs : Index (pre +:+ "{" +:+ mid +:+ "}" +:+ post) "{" = len pre).
  { apply (Index_first "{"%char pre). exact Hpre. }
  assert (He : LastIndex (pre +:+ "{" +:+ mid +:+ "}" +:+ post) "}"
               = len (pre +:+ "{" +:+ mid)).
  { replace (pre +:+ "{" +:+ mid +:+ "}" +:+ post)
      with ((pre +:+ "{" +:+ mid) +:+ String "}"%char post).
    - apply (LastIndex_last "}"%char). exact Hpost.
    - rewrite !append_assoc. reflexivity. }
  rewrite Hs, He. unfold len. rewrite !append_length. cbn [String.length].
  destruct (_ || _) eqn:Hg.
  - apply orb_true_iff in Hg as [Hg|Hg]; [apply orb_true_iff in Hg as [Hg|Hg]|];
      [apply Z.eqb_eq in Hg | apply Z.eqb_eq in Hg | apply Z.leb_le in Hg]; lia.
  - unfold slice.
    rewrite Nat2Z.id.
    replace (Z.to_nat _) with (String.length ("{" +:+ mid +:+ "}")).
    + rewrite substring_skip.
      replace ("{" +:+ mid +:+ "}" +:+ post) with (("{" +:+ mid +:+ "}") +:+ post).
      * apply substring_take.
      * rewrite !append_assoc. reflexivity.
    + rewrite !append_length. cbn [String.length]. lia.
Qed.

Lemma extractJSON_absent text :
  Contains text "{" = false \/ Contains text "}" = false \/
  (exists x y u v,
      text = x +:+ "{" +:+ y /\ Contains x "{" = false /\
      text = u +:+ "}" +:+ v /\ Contains v "}" = false /\
      len u < len x) ->
  extractJSON text = "{}".
Proof.
  unfold extractJSON. intros [H|[H|(x & y & u & v & Hx & Hnx & Hu & Hnv & Hlt)]].
  - rewrite (Index_absent "{"%char _ H). reflexivity.
  - rewrite (LastIndex_absent "}"%char _ H). cbn. by rewrite orb_true_r.
  - assert (Hs : Index text "{" = len x).
    { rewrite Hx. by apply (Index_first "{"%char). }
    assert (He : LastIndex text "}" = len u).
    { rewrite Hu. by apply (LastIndex_last "}"%char). }
    rewrite Hs, He.
    replace (len u <=? len x) with true by (symmetry; apply Z.leb_le; lia).
    by rewrite orb_true_r.
Qed.

(** X29. [extractJSON] returns the text from the first opening brace to
    the last closing brace, both included, and [parseTopicsFromResponse]
    decodes exactly that text: for a payload [{ mid }] with prose before it
    (holding no opening brace) and prose after it (holding no closing
    brace), the result is the decoder's result on [{ mid }], its error or
    its entries turned into topics one by one, in order. When a brace is
    missing, or the first opening brace stands after the last closing one,
    the extractor returns the empty object and the result is the decoder's
    result on the empty object: nothing is raised by the extractor. *)
Theorem extractJSON_spec (unmarshal : string -> result (list RawTopic)) :
  (forall pre mid post,
      Contains pre "{" = false ->
      Contains post "}" = false ->
      let text := pre +:+ "{" +:+ mid +:+ "}" +:+ post in
      extractJSON text = "{" +:+ mid +:+ "}" /\
      parseTopicsFromResponse unmarshal text
      = match unmarshal ("{" +:+ mid +:+ "}") with
        | Err e => Err e
        | Ok raws => Ok (toTopic <$> raws)
        end) /\
  (forall text,
      Contains text "{" = false \/ Contains text "}" = false \/
      (exists x y u v,
          text = x +:+ "{" +:+ y /\ Contains x "{" = false /\
          text = u +:+ "}" +:+ v /\ Contains v "}" = false /\
          len u < len x) ->
      extractJSON text = "{}" /\
      parseTopicsFromResponse unmarshal text
      = match unmarshal "{}" with Err e => Err e | Ok raws => Ok (toTopic <$> raws) end) /\
  (forall raw,
      topic_Name (toTopic raw) = raw_Name raw /\
      topic_Description (toTopic raw) = raw_Description raw /\
      topic_Difficulty (toTopic raw) = raw_Difficulty raw /\
      topic_EstMinutes (toTopic raw) = raw_EstMinutes raw).
Proof.
  split; [|split].
  - intros pre mid post Hpre Hpost text. subst text.
    pose proof (extractJSON_payload pre mid post Hpre Hpost) as H.
    split; [exact H|].
    unfold parseTopicsFromResponse. by rewrite H.
  - intros text H. pose proof (extractJSON_absent text H) as He.
    split; [exact He|]. unfold parseTopicsFromResponse. by rewrite He.
  - intros raw. by repeat split.
Qed.

Lemma extractJSON_spec_witness :
  parseTopicsFromResponse decodeTopics ("Hier sind die Themen: " +:+ topicsJSON +:+ " Ende")
  = Ok [toTopic (mkRawTopic "Folgen" "" 2 30)] /\
  extractJSON "} nichts {" = "{}".
Proof.
  destruct (extractJSON_spec decodeTopics) as (H1 & H2 & _).
  split.
  - destruct (H1 "Hier sind die Themen: "
                (quoted "topics" +:+ ":[{" +:+ quoted "name" +:+ ":" +:+ quoted "Folgen"
                 +:+ "," +:+ quoted "description" +:+ ":" +:+ quoted "" +:+ ","
                 +:+ quoted "difficulty" +:+ ":2," +:+ quoted "est_minutes" +:+ ":30}]")
                " Ende" eq_refl eq_refl) as [_ H].
    exact H.
  - apply (H2 "} nichts {"). right. right.
    exists "} nichts ", "", "", " nichts {".
    split; [reflexivity|]. split; [reflexivity|]. split; [reflexivity|].
    split; [reflexivity|]. reflexivity.
Defined.

(** C5 at its failing input. The first document is analysed and yields a
    topic; the reply to the ranking request has its only closing brace
    before its only opening brace. The extraction written out in
    [prioritizeWithExams] has no test for that order: its slice expression
    panics and the pipeline ends by that panic, where [extractJSON] returns
    the empty object on the same text and [parseTopicsFromResponse] an
    empty topic list. *)
Theorem ranking_extraction_panics :
  let reply := fun k : nat => match k with O => topicsJSON | _ => "} nichts {" end in
  fst (AnalyzeDocumentsParallel (env_replying reply) config0 world0
         [doc_named "Skript.pdf"; doc_named "Klausur 2023.pdf"])
  = Panics "slice bounds out of range" /\
  rankingPayload "} nichts {" = None /\
  extractJSON "} nichts {" = "{}" /\
  parseTopicsFromResponse decodeTopics "} nichts {" = Ok [].
Proof.
  cbv zeta. split; [vm_compute; reflexivity|]. split; [reflexivity|].
  split; reflexivity.
Qed.

(** ** The retry loop *)

Lemma attempts_app tr1 tr2 : attempts (tr1 ++ tr2) = (attempts tr1 + attempts tr2)%nat.
Proof.
  induction tr1 as [|ev tr1 IH]; [done|].
  destruct ev; cbn [app attempts]; rewrite IH; lia.
Qed.

Lemma attempts_backoff attempt :
  attempts (if 1 <? attempt then [EvSleep (attempt * 2)] else []) = 0%nat.
Proof. by destruct (1 <? attempt). Qed.

(** [m] transient failures in a row are [m] iterations of the loop: the
    loop goes on from attempt [a + m] with the last of their errors. *)
Lemma retry_loop_skip (doGenerate : Z -> attempt_outcome) (m : nat) :
  forall (n : nat) (a : Z) (lastErr : option error),
    (forall i, a <= i < a + Z.of_nat m -> transient (doGenerate i)) ->
    exists pre lastErr',
      retry_loop doGenerate (m + n) a lastErr
      = (fst (retry_loop doGenerate n (a + Z.of_nat m) lastErr'),
         pre ++ snd (retry_loop doGenerate n (a + Z.of_nat m) lastErr')) /\
      attempts pre = m /\
      (m = 0%nat -> lastErr' = lastErr) /\
      (m <> 0%nat ->
       exists e, fst (doGenerate (a + Z.of_nat m - 1)) = Err e /\ lastErr' = Some e).
Proof.
  induction m as [|m IH]; intros n a lastErr Htr.
  - exists [], lastErr. replace (a + Z.of_nat 0) with a by lia.
    cbn [Nat.add app]. split; [by destruct (retry_loop _ _ _ _)|]. by split; [|split].
  - destruct (Htr a ltac:(lia)) as (e & He & Hcls).
    destruct (IH n (a + 1) (Some e)) as (pre & lastErr' & Heq & Hatt & H0 & HS).
    { intros i Hi. apply Htr. lia. }
    replace (a + 1 + Z.of_nat m) with (a + Z.of_nat (S m)) in * by lia.
    assert (Hlast : exists e', fst (doGenerate (a + Z.of_nat (S m) - 1)) = Err e'
                               /\ lastErr' = Some e').
    { destruct m as [|m'].
      - exists e. split; [|by apply H0].
        by replace (a + Z.of_nat 1 - 1) with a by lia.
      - by apply HS. }
    cbn [Nat.add retry_loop].
    destruct (doGenerate a) as [r c] eqn:Hdg. cbn [fst snd] in He, Hcls. subst r.
    destruct (is_crash e) eqn:Hcr.
    + rewrite Heq.
      exists ((if 1 <? a then [EvSleep (a * 2)] else [])
                ++ [EvCallStart a; EvCallEnd a] ++ [EvSleep 5] ++ pre), lastErr'.
      split; [by rewrite <- !app_assoc|]. split; [|by split].
      rewrite !attempts_app, attempts_backoff, Hatt. done.
    + destruct Hcls as [? | ->]; [done|]. rewrite Heq.
      exists ((if 1 <? a then [EvSleep (a * 2)] else [])
                ++ [EvCallStart a; EvCallEnd a] ++ pre), lastErr'.
      split; [by rewrite <- !app_assoc|]. split; [|by split].
      rewrite !attempts_app, attempts_backoff, Hatt. done.
Qed.

(** With at least one iteration, or an error already seen, the loop never
    returns two nils. *)
Lemma retry_loop_not_nil doGenerate n : forall a lastErr,
  n <> 0%nat \/ lastErr <> None ->
  fst (retry_loop doGenerate n a lastErr) <> (None, None).
Proof.
  induction n as [|n IH]; intros a lastErr Hn.
  - cbn. destruct Hn as [?|?]; congruence.
  - cbn [retry_loop]. destruct (doGenerate a) as [[resp|e] c]; [done|].
    assert (Hrec : fst (retry_loop doGenerate n (a + 1) (Some e)) <> (None, None))
      by (apply IH; right; done).
    destruct (is_crash e).
    + by destruct (retry_loop _ n _ _).
    + destruct c; [done|]. by destruct (retry_loop _ n _ _).
Qed.

Lemma Generate_unfold doGenerate o prompt options :
  Generate doGenerate o prompt options
  = (fst (retry_loop (doGenerate (select_model o options) prompt) 3 1 None),
     [EvAcquire]
       ++ snd (retry_loop (doGenerate (select_model o options) prompt) 3 1 None)
       ++ [EvRelease]).
Proof.
  unfold Generate, generateWithRetry. change (Z.to_nat 3) with 3%nat.
  by destruct (retry_loop _ 3 _ _).
Qed.

Lemma Generate_not_nil doGenerate o prompt options :
  fst (Generate doGenerate o prompt options) <> (None, None).
Proof.
  rewrite Generate_unfold. cbn [fst].
  apply retry_loop_not_nil. left. lia.
Qed.




(** A failure without the crash signature, seen with the context cancelled,
    ends the loop at once with the context's error. *)
Lemma retry_loop_cancelled doGenerate n a lastErr e ce :
  doGenerate a = (Err e, Some ce) ->
  is_crash e = false ->
  retry_loop doGenerate (S n) a lastErr
  = ((None, Some ce),
     (if 1 <? a then [EvSleep (a * 2)] else []) ++ [EvCallStart a; EvCallEnd a]).
Proof. intros Hdg Hcr. cbn [retry_loop]. by rewrite Hdg, Hcr. Qed.

(** C3 at its failing input: the backend answers attempt 1 with a status
    500 while the caller's context is cancelled. [Generate] does not stop:
    it sleeps 5 and 4 seconds and sends a second request, and only the
    failure of that one (without the crash signature) ends the loop. *)
Theorem Generate_crash_hides_cancellation :
  Generate backend_crash_cancelled provider0 "p" None
  = ((None, Some "context canceled"),
     [EvAcquire;
      EvCallStart 1; EvCallEnd 1; EvSleep 5;
      EvSleep 4; EvCallStart 2; EvCallEnd 2;
      EvRelease]).
Proof. vm_compute. reflexivity. Qed.

(** ** Delays between attempts *)

Lemma transient_inv (o : attempt_outcome) :
  transient o ->
  exists e c, o = (Err e, c) /\ (is_crash e = true \/ c = None).
Proof.
  intros (e & He & Hc). destruct o as [r c]. cbn in *. subst r. eauto.
Qed.

(** One iteration of the loop, the rest of the run kept folded. *)
Lemma retry_loop_step doGenerate n a lastErr :
  retry_loop doGenerate (S n) a lastErr
  = let backoff := if 1 <? a then [EvSleep (a * 2)] else [] in
    let next := retry_loop doGenerate n (a + 1) in
    match doGenerate a with
    | (Ok resp, _) => ((Some resp, None), backoff ++ [EvCallStart a; EvCallEnd a])
    | (Err err, ctxErr) =>
        if is_crash err then
          (fst (next (Some err)),
           backoff ++ [EvCallStart a; EvCallEnd a] ++ [EvSleep 5] ++ snd (next (Some err)))
        else
          match ctxErr with
          | Some ce => ((None, Some ce), backoff ++ [EvCallStart a; EvCallEnd a])
          | None =>
              (fst (next (Some err)),
               backoff ++ [EvCallStart a; EvCallEnd a] ++ snd (next (Some err)))
          end
    end.
Proof.
  cbn [retry_loop]. destruct (doGenerate a) as [[resp|e] c]; [done|].
  destruct (is_crash e); [by destruct (retry_loop doGenerate n (a + 1) (Some e))|].
  destruct c; [done|]. by destruct (retry_loop doGenerate n (a + 1) (Some e)).
Qed.

(** Every iteration starts with its backoff, then its request. *)
Lemma retry_loop_first doGenerate n a lastErr :
  exists rest,
    snd (retry_loop doGenerate (S n) a lastErr)
    = (if 1 <? a then [EvSleep (a * 2)] else [])
        ++ EvCallStart a :: EvCallEnd a :: rest.
Proof.
  rewrite retry_loop_step. cbn zeta.
  destruct (doGenerate a) as [[resp|e] c]; [by eexists|].
  destruct (is_crash e); [by eexists|]. destruct c; by eexists.
Qed.

Lemma delay_between_skip n pre tr :
  Forall (fun ev => ev <> EvCallEnd n) pre ->
  delay_between n (pre ++ tr) = delay_between n tr.
Proof.
  induction 1 as [|ev pre Hev _ IH]; [done|].
  cbn [app delay_between]. by rewrite decide_False.
Qed.

Lemma until_start_sleeps n sleeps rest :
  Forall (fun ev => exists d, ev = EvSleep d) sleeps ->
  until_start n (sleeps ++ EvCallStart n :: rest) = Some sleeps.
Proof.
  induction 1 as [|ev sleeps (d & ->) _ IH]; cbn [app until_start].
  - by rewrite decide_True.
  - rewrite decide_False by done. by rewrite IH.
Qed.

(** The sleeps after a transient failure of attempt [a], when the loop has
    an iteration left. *)
Lemma retry_loop_delay doGenerate n a lastErr e c :
  1 <= a ->
  doGenerate a = (Err e, c) ->
  is_crash e = true \/ c = None ->
  delay_between a (snd (retry_loop doGenerate (S (S n)) a lastErr))
  = Some (if is_crash e then [EvSleep 5; EvSleep ((a + 1) * 2)]
          else [EvSleep ((a + 1) * 2)]).
Proof.
  intros Ha Hdg Hcls. rewrite retry_loop_step. cbn zeta. rewrite Hdg.
  destruct (retry_loop_first doGenerate n (a + 1) (Some e)) as [rest Hrest].
  replace (1 <? a + 1) with true in Hrest by (symmetry; apply Z.ltb_lt; lia).
  assert (Hbo : Forall (fun ev => ev <> EvCallEnd a)
                  (if 1 <? a then [EvSleep (a * 2)] else [])).
  { destruct (1 <? a); repeat constructor; done. }
  destruct (is_crash e).
  - cbn [snd]. rewrite Hrest, (delay_between_skip _ _ _ Hbo).
    cbn [app delay_between].
    rewrite decide_False by done. rewrite decide_True by done.
    apply (until_start_sleeps (a + 1) [EvSleep 5; EvSleep ((a + 1) * 2)]).
    repeat constructor; eauto.
  - destruct Hcls as [? | ->]; [done|].
    cbn [snd]. rewrite Hrest, (delay_between_skip _ _ _ Hbo).
    cbn [app delay_between].
    rewrite decide_False by done. rewrite decide_True by done.
    apply (until_start_sleeps (a + 1) [EvSleep ((a + 1) * 2)]).
    repeat constructor; eauto.
Qed.

(** C7, amended. Nothing is slept before the first attempt. When attempt
    [n] fails with a transient classification and attempt [n + 1] follows,
    the sleeps between them are: after a failure whose error text contains
    "terminated" or "500", the fixed cool-down of 5 seconds and then the
    backoff of [(n + 1) * 2] seconds of the coming attempt; after any other
    transient failure, that backoff alone. *)
Theorem retry_delays
    (doGenerate : string -> string -> Z -> attempt_outcome)
    (o : OllamaProvider) (prompt : string) (options : option GenerateOptions) :
  let doG := doGenerate (select_model o options) prompt in
  let tr := snd (generateWithRetry doGenerate o prompt options 3) in
  (exists rest, tr = EvCallStart 1 :: rest) /\
  (forall n e,
      1 <= n < 3 ->
      (forall i, 1 <= i <= n -> transient (doG i)) ->
      fst (doG n) = Err e ->
      delay_between n tr
      = Some (if is_crash e then [EvSleep 5; EvSleep ((n + 1) * 2)]
              else [EvSleep ((n + 1) * 2)])).
Proof.
  intros doG tr. subst tr. unfold generateWithRetry. fold doG.
  change (Z.to_nat 3) with 3%nat. split.
  - destruct (retry_loop_first doG 2 1 None) as [rest ->]. by exists (EvCallEnd 1 :: rest).
  - intros n e Hn Htr He.
    destruct (transient_inv _ (Htr 1 ltac:(lia))) as (e1 & c1 & H1 & Hc1).
    assert (Hcase : n = 1 \/ n = 2) by lia. destruct Hcase as [-> | ->].
    + rewrite H1 in He. cbn [fst] in He. injection He as ->.
      by apply retry_loop_delay with c1.
    + destruct (transient_inv _ (Htr 2 ltac:(lia))) as (e2 & c2 & H2 & Hc2).
      rewrite H2 in He. cbn [fst] in He. injection He as ->.
      rewrite retry_loop_step. cbn zeta. rewrite H1. change (1 + 1) with 2.
      change (1 <? 1) with false.
      pose proof (retry_loop_delay doG 0 2 (Some e1) e c2 ltac:(lia) H2 Hc2) as Hd.
      destruct (is_crash e1).
      * cbn [snd].
        change ([] ++ [EvCallStart 1; EvCallEnd 1] ++ [EvSleep 5] ++ ?t)
          with ([EvCallStart 1; EvCallEnd 1; EvSleep 5] ++ t).
        rewrite delay_between_skip; [exact Hd|]. repeat constructor; done.
      * destruct Hc1 as [? | ->]; [done|]. cbn [snd].
        change ([] ++ [EvCallStart 1; EvCallEnd 1] ++ ?t)
          with ([EvCallStart 1; EvCallEnd 1] ++ t).
        rewrite delay_between_skip; [exact Hd|]. repeat constructor; done.
Qed.

Lemma retry_delays_witness :
  delay_between 1 (snd (generateWithRetry backend_flaky provider0 "p" None 3))
  = Some [EvSleep 5; EvSleep 4] /\
  delay_between 2 (snd (generateWithRetry backend_flaky provider0 "p" None 3))
  = Some [EvSleep 6].
Proof.
  destruct (retry_delays backend_flaky provider0 "p" None) as [_ H].
  assert (T1 : transient (backend_flaky "qwen2.5:7b" "p" 1)).
  { exists "ollama-fehler (500): runner stopped". split; [reflexivity|]. left. reflexivity. }
  assert (T2 : transient (backend_flaky "qwen2.5:7b" "p" 2)).
  { exists "connection refused". split; [reflexivity|]. right. reflexivity. }
  split.
  - apply (H 1 "ollama-fehler (500): runner stopped"); [lia| |reflexivity].
    intros i Hi. replace i with 1 by lia. exact T1.
  - apply (H 2 "connection refused"); [lia| |reflexivity].
    intros i Hi. assert (Hc : i = 1 \/ i = 2) by lia.
    destruct Hc as [-> | ->]; [exact T1|exact T2].
Defined.

(** C7 as stated fails: a reply with status 503 is a failure with a
    5xx-class status, yet its error text holds neither "terminated" nor
    "500", and it is followed by the backoff of 4 seconds alone, without
    the cool-down. *)
Lemma retry_delays_5xx_counterexample :
  ~ (forall status body,
        500 <= status <= 599 ->
        exists rest,
          delay_between 1
            (snd (generateWithRetry (backend_status status body) provider0 "p" None 3))
          = Some (EvSleep 5 :: rest)).
Proof.
  intros H. assert (Hs : 500 <= 503 <= 599) by lia.
  destruct (H 503 "service unavailable" Hs) as [rest Hrest].
  vm_compute in Hrest. discriminate Hrest.
Qed.

(** ** The streaming decoder *)

(** C9, amended. Let the decoder first read the frames [fs], none of them
    marked done. The chunks sent are those frames in order, followed by:
    the done chunk when the next frame is marked done; one chunk carrying
    the error when the next decode fails otherwise than by end of stream;
    nothing when the stream ends cleanly there. In the last case the
    sequence ends with a chunk that is neither done nor an error, or is
    empty. *)
Theorem stream_loop_spec (fs : list string) (rest : list decode_step) :
  let pre := (fun r => Frame r false) <$> fs in
  let cs := (fun r => mkChunk r false None) <$> fs in
  (forall r, stream_loop (pre ++ Frame r true :: rest) = cs ++ [mkChunk r true None]) /\
  (forall e, stream_loop (pre ++ DecodeError e :: rest)
             = cs ++ [mkChunk "" false (Some e)]) /\
  stream_loop (pre ++ DecodeEOF :: rest) = cs /\
  stream_loop pre = cs.
Proof.
  induction fs as [|f fs IH]; cbn zeta.
  - done.
  - cbn zeta in IH. destruct IH as (H1 & H2 & H3 & H4).
    cbn [fmap list_fmap app stream_loop].
    repeat split; intros; cbn [app]; f_equal; auto.
Qed.

(** C9 as stated fails: a stream that ends cleanly after a frame not marked
    done leaves a last chunk with [done = false] and no error. *)
Lemma stream_loop_eof_counterexample :
  ~ (forall steps c,
        last (stream_loop steps) = Some c ->
        chunk_Done c = true \/ chunk_Error c <> None).
Proof.
  intros H.
  destruct (H [Frame "Hallo" false; DecodeEOF] (mkChunk "Hallo" false None) eq_refl)
    as [Hd | He]; [discriminate Hd | by apply He].
Qed.

(** ** Deduplication *)

Section Dedup.
Context {A : Type} (key : A -> string).

Local Abbreviation body := (dedup_step key).

Lemma dedup_loop_snoc_state l x :
  foldl body (∅, []) (l ++ [x]) = body (foldl body (∅, []) l) x.
Proof. apply foldl_snoc. Qed.

(** The keys marked in [seen] are the keys of the elements read. *)
Lemma dedup_loop_seen l k :
  default false (fst (foldl body (∅, []) l) !! k) = true <-> k ∈ key <$> l.
Proof.
  induction l as [|x l IH] using rev_ind.
  - cbn. rewrite lookup_empty. cbn. split; [done|]. by intros ?%elem_of_nil.
  - rewrite dedup_loop_snoc_state, fmap_app, elem_of_app. cbn [fmap list_fmap].
    rewrite list_elem_of_singleton.
    destruct (foldl body (∅, []) l) as [seen result]. cbn [dedup_step fst] in *.
    destruct (default false (seen !! key x)) eqn:Hx; cbn [fst].
    + rewrite IH. split; [by left|]. intros [?| ->]; [done|]. by apply IH.
    + destruct (decide (k = key x)) as [->|Hne].
      * rewrite lookup_insert_eq. cbn. split; [by right|done].
      * rewrite lookup_insert_ne by done. rewrite IH. split; [by left|].
        by intros [?|?].
Qed.

Lemma dedup_loop_nil : dedup_loop key [] = [].
Proof. reflexivity. Qed.

Lemma dedup_loop_snoc l x :
  dedup_loop key (l ++ [x])
  = if bool_decide (key x ∈ key <$> l) then dedup_loop key l
    else dedup_loop key l ++ [x].
Proof.
  unfold dedup_loop. rewrite dedup_loop_snoc_state.
  pose proof (dedup_loop_seen l (key x)) as Hseen.
  destruct (foldl body (∅, []) l) as [seen result]. cbn [dedup_step fst snd] in *.
  destruct (default false (seen !! key x)).
  - rewrite bool_decide_eq_true_2 by (by apply Hseen). done.
  - rewrite bool_decide_eq_false_2; [done|]. intros ?%Hseen. done.
Qed.

Lemma dedup_loop_sublist l : dedup_loop key l `sublist_of` l.
Proof.
  induction l as [|x l IH] using rev_ind; [done|].
  rewrite dedup_loop_snoc. case_bool_decide.
  - by apply sublist_inserts_r.
  - by apply sublist_app.
Qed.

Lemma dedup_loop_NoDup l : NoDup (key <$> dedup_loop key l).
Proof.
  induction l as [|x l IH] using rev_ind; [constructor|].
  rewrite dedup_loop_snoc. case_bool_decide as Hin; [done|].
  rewrite fmap_app. apply NoDup_app. split; [done|]. split.
  - intros k Hk ->%list_elem_of_singleton. apply Hin.
    apply list_elem_of_fmap in Hk as (y & -> & Hy).
    apply list_elem_of_fmap_2. eapply elem_of_sublist; [exact Hy|apply dedup_loop_sublist].
  - apply NoDup_singleton.
Qed.

Lemma dedup_loop_keeps_first : keeps_first_occurrences key (dedup_loop key).
Proof.
  split; [exact dedup_loop_nil|]. split; [exact dedup_loop_snoc|].
  split; [exact dedup_loop_sublist|exact dedup_loop_NoDup].
Qed.

(** Every key of the input survives. *)
Lemma dedup_loop_complete l : forall x, x ∈ l -> key x ∈ key <$> dedup_loop key l.
Proof.
  induction l as [|y l IH] using rev_ind; intros x; [by intros ?%elem_of_nil|].
  rewrite dedup_loop_snoc, elem_of_app, list_elem_of_singleton.
  intros [Hx| ->].
  - case_bool_decide; [by apply IH|].
    rewrite fmap_app, elem_of_app. left. by apply IH.
  - case_bool_decide as Hin.
    + apply list_elem_of_fmap in Hin as (z & Hz & Hin). rewrite Hz. by apply IH.
    + rewrite fmap_app, elem_of_app. right. by apply list_elem_of_singleton.
Qed.
End Dedup.

(** C8, amended. Documents are deduplicated by equality of their name as
    it is written; topics by equality of their lower-cased name. In both,
    the first occurrence of a key is kept in its place and every later
    element with that key is dropped. *)
Theorem deduplicate_spec (E : Env) :
  keeps_first_occurrences doc_Name deduplicateDocuments /\
  keeps_first_occurrences (fun t => ToLower E (topic_Name t)) (deduplicateTopics E).
Proof.
  split.
  - exact (dedup_loop_keeps_first doc_Name).
  - exact (dedup_loop_keeps_first (fun t => ToLower E (topic_Name t))).
Qed.

(** C8 as stated fails for documents: two names that differ only in case
    both survive. *)
Lemma deduplicateDocuments_case_counterexample :
  ~ (forall E docs, NoDup ((fun d => ToLower E (doc_Name d)) <$> deduplicateDocuments docs)).
Proof.
  intros H.
  specialize (H env0 [doc_named "Skript.pdf"; doc_named "skript.pdf"]).
  vm_compute in H. apply NoDup_cons in H as [Hin _]. apply Hin. by left.
Qed.

(** ** The priority sort *)

Section Sort.
Variable prio : Topic -> Z.

Lemma select_min_length x rest :
  length (snd (select_min prio x rest)) = length rest.
Proof.
  revert x. induction rest as [|y ys IH]; intros x; [done|].
  cbn [select_min]. destruct (prio y <? prio x).
  - specialize (IH y). destruct (select_min prio y ys). cbn in *. by rewrite IH.
  - specialize (IH x). destruct (select_min prio x ys). cbn in *. by rewrite IH.
Qed.

Lemma select_min_perm x rest :
  fst (select_min prio x rest) :: snd (select_min prio x rest) ≡ₚ x :: rest.
Proof.
  revert x. induction rest as [|y ys IH]; intros x; [done|].
  cbn [select_min]. destruct (prio y <? prio x).
  - specialize (IH y). destruct (select_min prio y ys) as [m r]. cbn [fst snd] in *.
    etrans; [apply Permutation_swap|]. by rewrite IH.
  - specialize (IH x). destruct (select_min prio x ys) as [m r]. cbn [fst snd] in *.
    etrans; [apply Permutation_swap|]. rewrite IH. apply Permutation_swap.
Qed.

Lemma select_min_least x rest :
  prio (fst (select_min prio x rest)) <= prio x /\
  Forall (fun t => prio (fst (select_min prio x rest)) <= prio t)
         (snd (select_min prio x rest)).
Proof.
  revert x. induction rest as [|y ys IH]; intros x.
  - cbn. split; [lia|constructor].
  - cbn [select_min]. destruct (prio y <? prio x) eqn:Hlt.
    + apply Z.ltb_lt in Hlt. destruct (IH y) as [Hm Hall].
      destruct (select_min prio y ys) as [m r]. cbn [fst snd] in *.
      split; [lia|]. constructor; [lia|done].
    + apply Z.ltb_ge in Hlt. destruct (IH x) as [Hm Hall].
      destruct (select_min prio x ys) as [m r]. cbn [fst snd] in *.
      split; [lia|]. constructor; [lia|done].
Qed.

(** The inner loop, from [j] on, with [mid] already passed. *)
Lemma sort_inner_from rest : forall x mid pre,
  foldl (sort_step prio (length pre)) (pre ++ x :: mid ++ rest)
        (seq (S (length pre + length mid)) (length rest))
  = pre ++ fst (select_min prio x rest) :: mid ++ snd (select_min prio x rest).
Proof.
  induction rest as [|y ys IH]; intros x mid pre; [done|].
  cbn [length seq foldl select_min].
  assert (Hi : (pre ++ x :: mid ++ y :: ys) !! length pre = Some x)
    by (by apply list_lookup_middle).
  assert (Hj : (pre ++ x :: mid ++ y :: ys) !! S (length pre + length mid) = Some y).
  { replace (pre ++ x :: mid ++ y :: ys) with ((pre ++ x :: mid) ++ y :: ys)
      by (by rewrite <- app_assoc).
    apply list_lookup_middle. rewrite length_app. cbn. lia. }
  unfold sort_step at 2. rewrite Hi, Hj.
  destruct (prio y <? prio x).
  - assert (Hsw : <[length pre := y]>
                    (<[S (length pre + length mid) := x]> (pre ++ x :: mid ++ y :: ys))
                  = pre ++ y :: (mid ++ [x]) ++ ys).
    { replace (S (length pre + length mid))
        with (length pre + S (length mid + 0))%nat by lia.
      rewrite insert_app_r.
      change (<[S (length mid + 0) := x]> (x :: mid ++ y :: ys))
        with (x :: <[(length mid + 0)%nat := x]> (mid ++ y :: ys)).
      rewrite insert_app_r.
      change (<[0%nat := x]> (y :: ys)) with (x :: ys).
      replace (length pre) with (length pre + 0)%nat at 1 by lia.
      rewrite insert_app_r.
      change (<[0%nat := y]> (x :: mid ++ x :: ys)) with (y :: mid ++ x :: ys).
      by rewrite <- app_assoc. }
    rewrite Hsw.
    replace (S (S (length pre + length mid)))
      with (S (length pre + length (mid ++ [x]))) by (rewrite length_app; cbn; lia).
    rewrite IH. destruct (select_min prio y ys) as [m r]. cbn [fst snd].
    by rewrite <- app_assoc.
  - replace (pre ++ x :: mid ++ y :: ys) with (pre ++ x :: (mid ++ [y]) ++ ys)
      by (by rewrite <- app_assoc).
    replace (S (S (length pre + length mid)))
      with (S (length pre + length (mid ++ [y]))) by (rewrite length_app; cbn; lia).
    rewrite IH. destruct (select_min prio x ys) as [m r]. cbn [fst snd].
    by rewrite <- app_assoc.
Qed.

Lemma sort_inner_select pre x rest :
  sort_inner prio (pre ++ x :: rest) (length pre)
  = pre ++ fst (select_min prio x rest) :: snd (select_min prio x rest).
Proof.
  unfold sort_inner. rewrite length_app. cbn [length].
  replace (length pre + S (length rest) - S (length pre))%nat
    with (length rest) by lia.
  pose proof (sort_inner_from rest x [] pre) as H. cbn [app length] in H.
  by replace (length pre + 0)%nat with (length pre) in H by lia.
Qed.

(** The outer loop, from [i] on. *)
Lemma sort_outer_from n : forall rest pre,
  length rest = n ->
  foldl (sort_inner prio) (pre ++ rest) (seq (length pre) n)
  = pre ++ selection prio n rest.
Proof.
  induction n as [|n IH]; intros rest pre Hlen.
  - by destruct rest.
  - destruct rest as [|x rest]; [done|]. cbn [seq foldl selection].
    rewrite sort_inner_select.
    pose proof (select_min_length x rest) as Hr.
    destruct (select_min prio x rest) as [m r]. cbn [fst snd] in *.
    replace (pre ++ m :: r) with ((pre ++ [m]) ++ r) by (by rewrite <- app_assoc).
    replace (S (length pre)) with (length (pre ++ [m])) by (rewrite length_app; cbn; lia).
    rewrite IH; [by rewrite <- app_assoc|]. cbn in Hlen. lia.
Qed.

Lemma sortTopics_selection l : sortTopics prio l = selection prio (length l) l.
Proof. exact (sort_outer_from (length l) l [] eq_refl). Qed.

Lemma selection_perm n : forall l, selection prio n l ≡ₚ l.
Proof.
  induction n as [|n IH]; intros l; [done|].
  destruct l as [|x rest]; [done|]. cbn [selection].
  pose proof (select_min_perm x rest) as Hp.
  destruct (select_min prio x rest) as [m r]. cbn [fst snd] in Hp.
  by rewrite IH.
Qed.

Lemma selection_sorted n : forall l,
  length l = n ->
  StronglySorted (fun a b => prio a <= prio b) (selection prio n l).
Proof.
  induction n as [|n IH]; intros l Hlen.
  - destruct l; [constructor|done].
  - destruct l as [|x rest]; [done|]. cbn [selection].
    pose proof (select_min_least x rest) as [_ Hall].
    pose proof (select_min_length x rest) as Hr.
    destruct (select_min prio x rest) as [m r]. cbn [fst snd] in *.
    constructor.
    + apply IH. cbn in Hlen. lia.
    + by rewrite selection_perm.
Qed.

Lemma sortTopics_perm l : sortTopics prio l ≡ₚ l.
Proof. rewrite sortTopics_selection. apply selection_perm. Qed.

Lemma sortTopics_sorted l :
  StronglySorted (fun a b => prio a <= prio b) (sortTopics prio l).
Proof. rewrite sortTopics_selection. by apply selection_sorted. Qed.

(** In a sorted list, a smaller key stands before a larger one. *)
Lemma sorted_lookup_lt (l : list Topic) i j a b :
  StronglySorted (fun a b => prio a <= prio b) l ->
  l !! i = Some a -> l !! j = Some b ->
  prio a < prio b -> (i < j)%nat.
Proof.
  intros Hs. revert i j. induction Hs as [|x l Hs IH Hall]; intros i j Hi Hj Hlt.
  - by rewrite lookup_nil in Hi.
  - destruct i as [|i], j as [|j]; cbn in Hi, Hj.
    + injection Hi as ->. injection Hj as ->. lia.
    + lia.
    + injection Hj as ->. rewrite Forall_forall in Hall.
      assert (prio b <= prio a); [|lia].
      apply Hall. apply list_elem_of_lookup. eauto.
    + apply -> Nat.succ_lt_mono. eauto.
Qed.
End Sort.

Section Ranking.
Variable E : Env.

Lemma buildPriorityMap_absent names : forall i m k,
  k ∉ ToLower E <$> names ->
  buildPriorityMap E i names m !! k = m !! k.
Proof.
  induction names as [|n ns IH]; intros i m k Hk; [done|].
  cbn [buildPriorityMap]. rewrite fmap_cons, not_elem_of_cons in Hk.
  destruct Hk as [Hne Hk]. rewrite IH by done. by rewrite lookup_insert_ne.
Qed.

(** A ranked name is mapped to an index at which it stands in the
    ranking (the last one, when it is listed more than once). *)
Lemma buildPriorityMap_present names : forall i m k,
  k ∈ ToLower E <$> names ->
  exists j : nat,
    buildPriorityMap E i names m !! k = Some (i + Z.of_nat j) /\
    (ToLower E <$> names) !! j = Some k.
Proof.
  induction names as [|n ns IH]; intros i m k Hk; [by apply elem_of_nil in Hk|].
  cbn [buildPriorityMap].
  destruct (decide (k ∈ ToLower E <$> ns)) as [Hin|Hnin].
  - destruct (IH (i + 1) (<[ToLower E n := i]> m) k Hin) as (j & Hj & Hl).
    exists (S j). split; [|done]. rewrite Hj. f_equal. lia.
  - rewrite fmap_cons, elem_of_cons in Hk. destruct Hk as [->|?]; [|done].
    exists 0%nat. split; [|done].
    rewrite buildPriorityMap_absent by done. rewrite lookup_insert_eq. f_equal. lia.
Qed.

Lemma priorityOf_ranked ranking t :
  ToLower E (topic_Name t) ∈ ToLower E <$> ranking ->
  exists j : nat,
    priorityOf E (buildPriorityMap E 0 ranking ∅) t = Z.of_nat j /\
    (ToLower E <$> ranking) !! j = Some (ToLower E (topic_Name t)).
Proof.
  intros Hin. destruct (buildPriorityMap_present ranking 0 ∅ _ Hin) as (j & Hj & Hl).
  exists j. unfold priorityOf. rewrite Hj. split; [lia|done].
Qed.

Lemma priorityOf_unranked ranking t :
  ToLower E (topic_Name t) ∉ ToLower E <$> ranking ->
  priorityOf E (buildPriorityMap E 0 ranking ∅) t = 999.
Proof.
  intros Hnin. unfold priorityOf.
  by rewrite buildPriorityMap_absent, lookup_empty.
Qed.
End Ranking.

(** A name listed more than once is mapped to its last index: the loop
    overwrites the earlier entries. *)
Lemma buildPriorityMap_last (E : Env) names : forall i m k,
  k ∈ ToLower E <$> names ->
  exists j : nat,
    buildPriorityMap E i names m !! k = Some (i + Z.of_nat j) /\
    (ToLower E <$> names) !! j = Some k /\
    (forall j', (j < j')%nat -> (ToLower E <$> names) !! j' <> Some k).
Proof.
  induction names as [|n ns IH]; intros i m k Hk; [by apply elem_of_nil in Hk|].
  cbn [buildPriorityMap].
  destruct (decide (k ∈ ToLower E <$> ns)) as [Hin|Hnin].
  - destruct (IH (i + 1) (<[ToLower E n := i]> m) k Hin) as (j & Hj & Hl & Hlast).
    exists (S j). split; [rewrite Hj; f_equal; lia|]. split; [done|].
    intros [|j'] Hlt; [lia|]. cbn. apply Hlast. lia.
  - rewrite fmap_cons, elem_of_cons in Hk. destruct Hk as [->|?]; [|done].
    exists 0%nat. split.
    { rewrite buildPriorityMap_absent by done. rewrite lookup_insert_eq. f_equal. lia. }
    split; [done|].
    intros [|j'] Hlt; [lia|]. cbn. intros Hl. apply Hnin.
    by apply list_elem_of_lookup_2 in Hl.
Qed.

(** With a reply that yields a ranking, [prioritizeWithExams] returns the
    topics as sorted by lines 736-764. *)
Lemma prioritizeWithExams_ranked (E : Env) (cfg : ParallelAgentConfig) (w : World)
    (topics : list Topic) (examDocs : list Document) (resp : GenerateResponse)
    (jsonStr : string) (ranking : list string) :
  topics <> [] -> examDocs <> [] ->
  rankingCall E cfg w topics examDocs = Ok resp ->
  rankingPayload (resp_Content resp) = Some jsonStr ->
  unmarshalPriority E jsonStr = Ok ranking ->
  fst (prioritizeWithExams E cfg w topics examDocs)
  = Returns (sortByPriority E ranking topics).
Proof.
  intros Ht Hd Hcall Hpay Hdec. unfold prioritizeWithExams.
  rewrite (bool_decide_eq_false_2 (length examDocs = 0%nat)) by (by destruct examDocs).
  rewrite (bool_decide_eq_false_2 (length topics = 0%nat)) by (by destruct topics).
  cbn [orb]. cbv zeta. unfold rankingCall in Hcall. cbv zeta in Hcall.
  destruct (ProviderGenerate E _ _ _) as [r w2]. cbn [fst] in Hcall. subst r.
  unfold rankingPayload in Hpay. cbv zeta in Hpay. rewrite Hpay, Hdec. reflexivity.
Qed.




Example sortByPriority_example :
  topic_Name <$> sortByPriority env0 ["integrale"]
    [topic_named "Folgen"; topic_named "Reihen"; topic_named "Integrale"]
  = ["Integrale"; "Reihen"; "Folgen"].
Proof. reflexivity. Qed.

(** ** The pipeline *)

Section Pipeline.
Variables (E : Env) (cfg : ParallelAgentConfig).

Local Abbreviation body := (analyze_step E cfg).

Lemma analyze_fold_acc docs : forall acc n w,
  fst (fst (foldl body (acc, n, w) docs))
  = acc ++ fst (fst (foldl body ([], 0, w) docs)) /\
  snd (foldl body (acc, n, w) docs) = snd (foldl body ([], 0, w) docs).
Proof.
  induction docs as [|doc docs IH]; intros acc n w.
  - cbn. by rewrite app_nil_r.
  - cbn [foldl analyze_step]. destruct (analyzeOneDocument E cfg w doc) as [[topics|e] w1].
    + destruct (IH (acc ++ topics) (n + 1) w1) as [H1 H2].
      destruct (IH ([] ++ topics) (0 + 1) w1) as [H3 H4].
      rewrite H1, H2, H3, H4. by rewrite app_assoc.
    + apply IH.
Qed.

Lemma analyzeDocumentsSequentially_fold w docs :
  analyzeDocumentsSequentially E cfg w docs
  = (fst (fst (foldl body ([], 0, w) docs)), snd (foldl body ([], 0, w) docs)).
Proof.
  unfold analyzeDocumentsSequentially. destruct docs as [|doc docs]; [done|].
  case_decide; [done|].
  change (foldl _ ([], 0, w) (doc :: docs)) with (foldl body ([], 0, w) (doc :: docs)).
  by destruct (foldl body _ _) as [[? ?] ?].
Qed.

(** A document whose analysis fails is skipped; the topics of the others
    are gathered in the order of the documents. *)
Lemma analyzeDocumentsSequentially_cons w doc docs :
  analyzeDocumentsSequentially E cfg w (doc :: docs)
  = let '(r, w1) := analyzeOneDocument E cfg w doc in
    let '(ts, w2) := analyzeDocumentsSequentially E cfg w1 docs in
    (match r with Ok topics => topics ++ ts | Err _ => ts end, w2).
Proof.
  rewrite analyzeDocumentsSequentially_fold. cbn [foldl analyze_step].
  destruct (analyzeOneDocument E cfg w doc) as [[topics|e] w1];
    rewrite analyzeDocumentsSequentially_fold; [|done].
  destruct (analyze_fold_acc docs ([] ++ topics) (0 + 1) w1) as [H1 H2].
  by rewrite H1, H2.
Qed.

Lemma deduplicateTopics_nil : deduplicateTopics E [] = [].
Proof. reflexivity. Qed.
End Pipeline.




(** ** The fast model *)

Lemma SetModel_restore (o : OllamaProvider) (fast : string) :
  defaultModel o <> "" ->
  SetModel (SetModel o fast) (defaultModel o) = o.
Proof.
  intros Hne. unfold SetModel at 1. rewrite decide_False by done.
  destruct o as [url model]. unfold SetModel. by destruct (decide (fast = "")).
Qed.

Lemma SetModel_current (o : OllamaProvider) (model : string) :
  model <> "" -> GetCurrentModel (SetModel o model) = model.
Proof. intros Hne. unfold SetModel. by rewrite decide_False. Qed.

Lemma ProviderGenerate_world (E : Env) (w : World) prompt options :
  snd (ProviderGenerate E w prompt options)
  = {| provider := provider w;
       history := history w ++ [(select_model (provider w) options, prompt)] |}.
Proof. unfold ProviderGenerate. by destruct (Generate _ _ _ _). Qed.

Lemma analyzeOneDocument_world (E : Env) (cfg : ParallelAgentConfig) (w : World) doc :
  FastModel cfg <> "" ->
  FastModel cfg <> GetCurrentModel (provider w) ->
  GetCurrentModel (provider w) <> "" ->
  snd (analyzeOneDocument E cfg w doc)
  = {| provider := provider w;
       history := history w ++
         [(FastModel cfg,
           analyzePrompt E (doc_Name doc) (truncate 4000 (doc_Content doc)))] |}.
Proof.
  intros Hfast Hdiff Hold. unfold analyzeOneDocument.
  rewrite !bool_decide_eq_true_2 by done. cbn [andb].
  match goal with
  | |- context [ProviderGenerate E ?w1 ?p ?opts] =>
      pose proof (ProviderGenerate_world E w1 p opts) as Hw;
      destruct (ProviderGenerate E w1 p opts) as [r w2]
  end.
  cbn [snd] in Hw. subst w2. cbn [with_provider provider history select_model opt_Model].
  rewrite decide_True by done. rewrite (SetModel_current _ _ Hfast).
  unfold GetCurrentModel in *. rewrite SetModel_restore by done.
  by destruct r.
Qed.

Lemma prioritizeWithExams_world (E : Env) (cfg : ParallelAgentConfig) (w : World)
    topics examDocs :
  FastModel cfg <> "" ->
  GetCurrentModel (provider w) <> "" ->
  snd (prioritizeWithExams E cfg w topics examDocs) = w \/
  snd (prioritizeWithExams E cfg w topics examDocs)
  = {| provider := provider w;
       history := history w ++
         [(FastModel cfg,
           priorityPrompt E (Join (topic_Name <$> topics) ", ")
             (collectExamContent "" examDocs))] |}.
Proof.
  intros Hfast Hold. unfold prioritizeWithExams.
  destruct (_ || _); [by left|]. right.
  rewrite !bool_decide_eq_true_2 by done.
  match goal with
  | |- context [ProviderGenerate E ?w1 ?p ?opts] =>
      pose proof (ProviderGenerate_world E w1 p opts) as Hw;
      destruct (ProviderGenerate E w1 p opts) as [r w2]
  end.
  cbn [snd] in Hw. subst w2. cbn [with_provider provider history select_model opt_Model].
  rewrite decide_True by done. rewrite (SetModel_current _ _ Hfast).
  unfold GetCurrentModel in *. rewrite SetModel_restore by done.
  destruct r as [resp|e]; [|reflexivity].
  repeat case_match; reflexivity.
Qed.

(** C10, amended. Let a fast model be configured, different from the
    provider's current model, and let the current model be a non-empty
    name. The analysis of one document sends its request with the fast
    model and leaves the provider exactly as it found it, whether the call
    fails or not. So does the prioritization, which sends either no request
    (nothing to rank) or one request with the fast model, also when it ends
    by a panic. *)
Theorem fast_model_restored (E : Env) (cfg : ParallelAgentConfig) (w : World) :
  FastModel cfg <> "" ->
  FastModel cfg <> GetCurrentModel (provider w) ->
  GetCurrentModel (provider w) <> "" ->
  (forall doc,
      let w' := snd (analyzeOneDocument E cfg w doc) in
      provider w' = provider w /\
      exists prompt, history w' = history w ++ [(FastModel cfg, prompt)]) /\
  (forall topics examDocs,
      let w' := snd (prioritizeWithExams E cfg w topics examDocs) in
      provider w' = provider w /\
      (history w' = history w \/
       exists prompt, history w' = history w ++ [(FastModel cfg, prompt)])).
Proof.
  intros Hfast Hdiff Hold. split.
  - intros doc w'. subst w'. rewrite analyzeOneDocument_world by done.
    cbn [provider history]. split; [done|]. by eexists.
  - intros topics examDocs w'. subst w'.
    destruct (prioritizeWithExams_world E cfg w topics examDocs Hfast Hold) as [-> | ->].
    + split; [done|]. by left.
    + cbn [provider history]. split; [done|]. right. by eexists.
Qed.

Lemma fast_model_restored_witness :
  provider (snd (analyzeOneDocument env0 config0 world0 (doc_named "Skript.pdf")))
  = provider0.
Proof.
  destruct (fast_model_restored env0 config0 world0) as [H _]; [done|done|done|].
  apply (H (doc_named "Skript.pdf")).
Defined.

(** C10 as stated fails when the provider's current model is the empty
    string: the deferred [SetModel] is then ignored and the fast model
    stays selected. *)
Lemma fast_model_counterexample :
  ~ (forall E cfg w doc,
        FastModel cfg <> "" ->
        FastModel cfg <> GetCurrentModel (provider w) ->
        provider (snd (analyzeOneDocument E cfg w doc)) = provider w).
Proof.
  intros H.
  specialize (H env0 config0 world_unnamed (doc_named "Skript.pdf")).
  vm_compute in H. discriminate H; discriminate.
Qed.

(** ** The admission gate *)

Lemma gated_backoff (a : Z) (p : list event) :
  gated ((if 1 <? a then [EvSleep (a * 2)] else []) ++ p) = gated p.
Proof. by destruct (1 <? a). Qed.

(** Whatever the backend answers, the loop leaves sleeps and whole
    requests; with the release behind them, a gated run. *)
Lemma retry_loop_gated doGenerate n : forall a lastErr,
  gated (snd (retry_loop doGenerate n a lastErr) ++ [EvRelease]) = true.
Proof.
  induction n as [|n IH]; intros a lastErr; [done|].
  rewrite retry_loop_step. cbn zeta.
  destruct (doGenerate a) as [[resp|e] c]; cbn [snd].
  - rewrite <- app_assoc. by rewrite gated_backoff.
  - destruct (is_crash e); [|destruct c]; cbn [snd];
      rewrite <- ?app_assoc, gated_backoff; cbn [app gated]; try done; apply IH.
Qed.

Lemma Generate_events_waiting (c : invocation) :
  phase_of (Generate_events c) = Some Waiting.
Proof.
  destruct c as [[[doGenerate o] prompt] options]. unfold Generate_events.
  rewrite Generate_unfold. cbn [snd app phase_of].
  by rewrite retry_loop_gated.
Qed.

Lemma sum_list_with_insert {A} (f : A -> nat) (l : list A) (i : nat) (x y : A) :
  l !! i = Some x ->
  (sum_list_with f (<[i := y]> l) + f x = sum_list_with f l + f y)%nat.
Proof.
  revert i. induction l as [|z l IH]; intros i Hi; [done|].
  destruct i as [|i].
  - injection Hi as ->. cbn. lia.
  - specialize (IH i Hi).
    change (<[S i := y]> (z :: l)) with (z :: <[i := y]> l). cbn [sum_list_with]. lia.
Qed.

Lemma sum_list_with_lookup_le {A} (f : A -> nat) (l : list A) (i : nat) (x : A) :
  l !! i = Some x -> (f x <= sum_list_with f l)%nat.
Proof.
  revert i. induction l as [|z l IH]; intros i Hi; [done|].
  destruct i as [|i].
  - injection Hi as ->. cbn. lia.
  - specialize (IH i Hi). cbn [sum_list_with]. lia.
Qed.

Lemma Forall_insert_phase (ts : list (list event)) (i : nat) (q : list event) :
  Forall (fun p => is_Some (phase_of p)) ts ->
  is_Some (phase_of q) ->
  Forall (fun p => is_Some (phase_of p)) (<[i := q]> ts).
Proof. intros Hall Hq. by apply Forall_insert. Qed.

Lemma flies_le_holds (p : list event) : (flies p <= holds p)%nat.
Proof. unfold flies, holds. destruct (phase_of p) as [[]|]; lia. Qed.

Lemma gate_invariant_start (cs : list invocation) :
  gate_invariant (start (Generate_events <$> cs)).
Proof.
  unfold gate_invariant, start. cbn [threads sem inflight].
  assert (H : Forall (fun p => phase_of p = Some Waiting) (Generate_events <$> cs)).
  { apply Forall_fmap, Forall_forall. intros c _. apply Generate_events_waiting. }
  split; [|split; [|split; [|lia]]].
  - eapply Forall_impl; [exact H|]. intros p ->. by eexists.
  - induction H as [|p ts Hp _ IH]; [done|]. cbn. unfold holds at 1. rewrite Hp. lia.
  - induction H as [|p ts Hp _ IH]; [done|]. cbn. unfold flies at 1. rewrite Hp. lia.
Qed.

Lemma holds_phase (p : list event) (ph : phase) :
  phase_of p = Some ph ->
  holds p = match ph with Holding | Flying => 1%nat | _ => 0%nat end.
Proof. unfold holds. by intros ->. Qed.

Lemma flies_phase (p : list event) (ph : phase) :
  phase_of p = Some ph ->
  flies p = match ph with Flying => 1%nat | _ => 0%nat end.
Proof. unfold flies. by intros ->. Qed.

Lemma gated_holding (p : list event) : gated p = true -> phase_of p = Some Holding.
Proof. intros Hg. destruct p as [|[] ?]; cbn [phase_of]; try done; by rewrite Hg. Qed.

(** One caller moves from phase [ph] to phase [ph']: the counts follow. *)
Lemma gate_invariant_move (s : sys) (i : nat) (p q : list event) (ph ph' : phase)
    (sem' inflight' : nat) :
  gate_invariant s ->
  threads s !! i = Some p ->
  phase_of p = Some ph ->
  phase_of q = Some ph' ->
  (sem' + match ph with Holding | Flying => 1 | _ => 0 end
   = sem s + match ph' with Holding | Flying => 1 | _ => 0 end)%nat ->
  (inflight' + match ph with Flying => 1 | _ => 0 end
   = inflight s + match ph' with Flying => 1 | _ => 0 end)%nat ->
  (sem' <= 1)%nat ->
  gate_invariant (mkSys sem' inflight' (<[i := q]> (threads s))).
Proof.
  intros (Hall & Hsem & Hfly & Hcap) Hi Hp Hq Hs Hf Hc.
  pose proof (sum_list_with_insert holds _ i _ q Hi) as Hh.
  pose proof (sum_list_with_insert flies _ i _ q Hi) as Hfl.
  rewrite (holds_phase _ _ Hp), (holds_phase _ _ Hq) in Hh.
  rewrite (flies_phase _ _ Hp), (flies_phase _ _ Hq) in Hfl.
  unfold gate_invariant. cbn [threads sem inflight].
  split; [apply Forall_insert_phase; [done|by rewrite Hq]|].
  split; [lia|]. split; [lia|done].
Qed.

Lemma gate_invariant_step (s : sys) (i : nat) :
  gate_invariant s -> gate_invariant (step s i).
Proof.
  intros Hinv. unfold step.
  destruct (threads s !! i) as [p|] eqn:Hi; [|done].
  destruct p as [|ev rest]; [done|].
  pose proof Hinv as (Hall & Hsem & Hfly & Hcap).
  assert (Hp : is_Some (phase_of (ev :: rest))).
  { rewrite Forall_forall in Hall. apply Hall. apply list_elem_of_lookup. eauto. }
  destruct Hp as [ph Hph].
  pose proof (sum_list_with_lookup_le holds _ i _ Hi) as Hhle.
  pose proof (sum_list_with_lookup_le flies _ i _ Hi) as Hfle.
  rewrite (holds_phase _ _ Hph) in Hhle. rewrite (flies_phase _ _ Hph) in Hfle.
  rewrite <- Hsem in Hhle. rewrite <- Hfly in Hfle.
  destruct ev; pose proof Hph as Hph'; cbn [phase_of gated] in Hph'.
  - (* the send on the semaphore *)
    destruct (gated rest) eqn:Hg; [|done]. injection Hph' as <-.
    case_decide; [|done].
    eapply (gate_invariant_move s i _ rest Waiting Holding); eauto using gated_holding; lia.
  - (* the receive *)
    destruct rest as [|? ?]; [|done]. injection Hph' as <-.
    case_decide; [|lia].
    eapply (gate_invariant_move s i _ [] Holding Finished); eauto; lia.
  - (* a sleep *)
    destruct (gated rest) eqn:Hg; [|done]. injection Hph' as <-.
    eapply (gate_invariant_move s i _ rest Holding Holding); eauto using gated_holding; lia.
  - (* a request is sent *)
    destruct rest as [|[] rest']; try done.
    destruct (gated rest') eqn:Hg; [|done]. injection Hph' as <-.
    eapply (gate_invariant_move s i _ _ Holding Flying); eauto; [|lia..].
    cbn [phase_of]. by rewrite Hg.
  - (* its response body is closed *)
    destruct (gated rest) eqn:Hg; [|done]. injection Hph' as <-.
    eapply (gate_invariant_move s i _ rest Flying Holding); eauto using gated_holding; lia.
Qed.

Lemma gate_invariant_run (schedule : list nat) : forall s,
  gate_invariant s -> gate_invariant (run schedule s).
Proof.
  induction schedule as [|i schedule IH]; intros s Hs; [done|].
  apply IH. by apply gate_invariant_step.
Qed.

(** X15. Callers of [Generate] alone are serialized: for any number of
    concurrent calls, whatever the backend answers each of them and under
    every schedule, at most one request is open at the backend. *)
Lemma Generate_serialized (cs : list invocation) (schedule : list nat) :
  (inflight (run schedule (start (Generate_events <$> cs))) <= 1)%nat.
Proof.
  destruct (gate_invariant_run schedule _ (gate_invariant_start cs))
    as (_ & Hsem & Hfly & Hcap).
  rewrite Hfly. etrans; [|exact Hcap]. rewrite Hsem.
  generalize (threads (run schedule (start (Generate_events <$> cs)))).
  intros ts. induction ts as [|p ts IH]; [done|].
  cbn. pose proof (flies_le_holds p). lia.
Qed.

(** C1 at its failing input. [GenerateStream] and [Chat] never touch the
    semaphore. A caller of [Generate] and a caller of [GenerateStream] (or
    two callers of [Chat]) therefore have two requests open at the backend
    at the same instant. *)
Theorem gate_bypassed_by_stream_and_chat :
  let g := snd (Generate backend_down provider0 "p" None) in
  let s := snd (GenerateStream (Ok [Frame "Hallo" false; Frame "" true])) in
  let c := snd (Chat (Err "ollama-chat fehlgeschlagen")) in
  (EvAcquire ∉ s) /\ (EvAcquire ∉ c) /\
  inflight (run [0; 0; 1]%nat (start [g; s])) = 2%nat /\
  inflight (run [0; 1]%nat (start [c; c])) = 2%nat.
Proof.
  cbn zeta. split; [|split; [|split]].
  - intros H. by repeat (apply elem_of_cons in H as [?|H]; [done|]);
      apply elem_of_nil in H.
  - intros H. by repeat (apply elem_of_cons in H as [?|H]; [done|]);
      apply elem_of_nil in H.
  - vm_compute. reflexivity.
  - vm_compute. reflexivity.
Qed.

(** * Further properties of the code *)

(** ** The retry loop: bounds and outcomes *)

Lemma slept_app tr1 tr2 : slept (tr1 ++ tr2) = slept tr1 + slept tr2.
Proof.
  induction tr1 as [|ev tr1 IH]; [done|].
  destruct ev; cbn [app slept]; rewrite IH; lia.
Qed.

Lemma slept_backoff a :
  slept (if 1 <? a then [EvSleep (a * 2)] else []) = if 1 <? a then a * 2 else 0.
Proof. destruct (1 <? a); cbn; lia. Qed.

Lemma retry_loop_attempts_le doGenerate n : forall a lastErr,
  (attempts (snd (retry_loop doGenerate n a lastErr)) <= n)%nat.
Proof.
  induction n as [|n IH]; intros a lastErr; [done|].
  rewrite retry_loop_step. cbn zeta.
  destruct (doGenerate a) as [[resp|e] c]; cbn [snd].
  - rewrite attempts_app, attempts_backoff. cbn. lia.
  - specialize (IH (a + 1) (Some e)).
    destruct (is_crash e); [|destruct c]; cbn [snd];
      rewrite ?attempts_app, ?attempts_backoff; cbn [attempts app]; lia.
Qed.

Lemma retry_loop_slept_le doGenerate n : forall a lastErr,
  1 <= a ->
  0 <= slept (snd (retry_loop doGenerate n a lastErr)) <= sleep_bound n a.
Proof.
  induction n as [|n IH]; intros a lastErr Ha; [done|].
  rewrite retry_loop_step. cbn zeta. cbn [sleep_bound].
  assert (Hb : 0 <= (if 1 <? a then a * 2 else 0)) by (destruct (1 <? a); lia).
  assert (Hrest : forall le, 0 <= slept (snd (retry_loop doGenerate n (a + 1) le))
                             <= sleep_bound n (a + 1)) by (intros; apply IH; lia).
  assert (Hsb : 0 <= sleep_bound n (a + 1)) by (specialize (Hrest None); lia).
  destruct (doGenerate a) as [[resp|e] c]; cbn [snd].
  - rewrite slept_app, slept_backoff. cbn [slept]. lia.
  - specialize (Hrest (Some e)).
    destruct (is_crash e); [|destruct c]; cbn [snd];
      rewrite ?slept_app, ?slept_backoff; cbn [slept app]; lia.
Qed.

Lemma requests_le_attempts (http : Z -> http_outcome) (tr : list event) :
  (requests http tr <= attempts tr)%nat.
Proof.
  induction tr as [|ev tr IH]; [done|].
  destruct ev; cbn [requests attempts]; try done.
  destruct (sends_request _); lia.
Qed.

Lemma requests_none (http : Z -> http_outcome) (tr : list event) :
  (forall a, sends_request (http a) = false) -> requests http tr = 0%nat.
Proof.
  intros Hnone. induction tr as [|ev tr IH]; [done|].
  destruct ev; cbn [requests]; try done. by rewrite Hnone.
Qed.

(** X1. Whatever the backend does, one call of [Generate] makes at least
    one and at most three attempts, an attempt being one call of
    [doGenerate]. An attempt sends one request, or none when the request
    cannot be built: so at most as many requests as attempts are sent, and
    none at all when no request can be built. The call sleeps at most 25
    seconds in all; a backend that answers 500 three times makes it sleep
    exactly that. *)
Theorem Generate_bounds
    (doGenerate : string -> string -> Z -> attempt_outcome)
    (o : OllamaProvider) (prompt : string) (options : option GenerateOptions) :
  let tr := snd (Generate doGenerate o prompt options) in
  (1 <= attempts tr <= 3)%nat /\
  0 <= slept tr <= 25 /\
  slept (snd (Generate backend_crashing o prompt options)) = 25 /\
  (forall (http : Z -> http_outcome) (ctx : Z -> option error),
      let tr' := snd (Generate (backend_of http ctx) o prompt options) in
      (requests http tr' <= attempts tr' <= 3)%nat /\
      ((forall a, sends_request (http a) = false) ->
       requests http tr' = 0%nat /\ (1 <= attempts tr')%nat)).
Proof.
  assert (Hatt : forall doG : string -> string -> Z -> attempt_outcome,
            (1 <= attempts (snd (Generate doG o prompt options)) <= 3)%nat).
  { intros doG0. rewrite Generate_unfold. cbn [snd].
    set (doG := doG0 (select_model o options) prompt).
    cbn [app attempts]. rewrite attempts_app. cbn [attempts].
    pose proof (retry_loop_attempts_le doG 3 1 None) as Hle.
    destruct (retry_loop_first doG 2 1 None) as [rest Hrest].
    rewrite Hrest in *. change (1 <? 1) with false in *. cbn [app attempts] in *. lia. }
  cbn zeta. split; [apply Hatt|]. split; [|split].
  - rewrite Generate_unfold. cbn [snd].
    set (doG := doGenerate (select_model o options) prompt).
    cbn [app slept]. rewrite slept_app. cbn [slept].
    pose proof (retry_loop_slept_le doG 3 1 None ltac:(lia)) as H.
    change (sleep_bound 3 1) with 25 in H. lia.
  - vm_compute. reflexivity.
  - intros http ctx. pose proof (Hatt (backend_of http ctx)) as H.
    pose proof (requests_le_attempts http
                  (snd (Generate (backend_of http ctx) o prompt options))) as Hle.
    split; [lia|]. intros Hnone. split; [by apply requests_none|lia].
Qed.

(** The three ways the loop ends, from attempt [a] with [n] iterations
    allowed. *)
Lemma retry_loop_outcomes doGenerate n : forall a lastErr,
  (exists k resp,
      a <= k < a + Z.of_nat n /\
      (forall i, a <= i < k -> transient (doGenerate i)) /\
      fst (doGenerate k) = Ok resp /\
      fst (retry_loop doGenerate n a lastErr) = (Some resp, None) /\
      Z.of_nat (attempts (snd (retry_loop doGenerate n a lastErr))) = k - a + 1) \/
  (exists k e ce,
      a <= k < a + Z.of_nat n /\
      (forall i, a <= i < k -> transient (doGenerate i)) /\
      doGenerate k = (Err e, Some ce) /\ is_crash e = false /\
      fst (retry_loop doGenerate n a lastErr) = (None, Some ce) /\
      Z.of_nat (attempts (snd (retry_loop doGenerate n a lastErr))) = k - a + 1) \/
  ((forall i, a <= i < a + Z.of_nat n -> transient (doGenerate i)) /\
   attempts (snd (retry_loop doGenerate n a lastErr)) = n /\
   (n = 0%nat /\ fst (retry_loop doGenerate n a lastErr) = (None, lastErr) \/
    exists e, fst (doGenerate (a + Z.of_nat n - 1)) = Err e /\
              fst (retry_loop doGenerate n a lastErr) = (None, Some e))).
Proof.
  induction n as [|n IH]; intros a lastErr.
  - right. right. split; [intros i Hi; lia|]. split; [done|]. by left.
  - rewrite retry_loop_step. cbn zeta.
    assert (Hstep : forall e c,
      doGenerate a = (Err e, c) -> is_crash e = true \/ c = None ->
      forall i k, a + 1 <= k -> (forall j, a + 1 <= j < k -> transient (doGenerate j)) ->
      a <= i < k -> transient (doGenerate i)).
    { intros e c Hdg Hcls i k Hk Hall Hi.
      destruct (decide (i = a)) as [->|Hne]; [|apply Hall; lia].
      exists e. rewrite Hdg. by split. }
    destruct (doGenerate a) as [[resp|e] c] eqn:Hdg.
    + left. exists a, resp. split; [lia|]. split; [intros i Hi; lia|].
      rewrite Hdg. split; [done|]. split; [done|]. cbn [snd].
      rewrite attempts_app, attempts_backoff. cbn. lia.
    + assert (Hgo : is_crash e = true \/ c = None ->
        forall tr0, attempts tr0 = 1%nat ->
        (exists k resp,
            a <= k < a + Z.of_nat (S n) /\
            (forall i, a <= i < k -> transient (doGenerate i)) /\
            fst (doGenerate k) = Ok resp /\
            fst (retry_loop doGenerate n (a + 1) (Some e)) = (Some resp, None) /\
            Z.of_nat (attempts (tr0 ++ snd (retry_loop doGenerate n (a + 1) (Some e))))
            = k - a + 1) \/
        (exists k e' ce,
            a <= k < a + Z.of_nat (S n) /\
            (forall i, a <= i < k -> transient (doGenerate i)) /\
            doGenerate k = (Err e', Some ce) /\ is_crash e' = false /\
            fst (retry_loop doGenerate n (a + 1) (Some e)) = (None, Some ce) /\
            Z.of_nat (attempts (tr0 ++ snd (retry_loop doGenerate n (a + 1) (Some e))))
            = k - a + 1) \/
        ((forall i, a <= i < a + Z.of_nat (S n) -> transient (doGenerate i)) /\
         attempts (tr0 ++ snd (retry_loop doGenerate n (a + 1) (Some e))) = S n /\
         (S n = 0%nat /\ fst (retry_loop doGenerate n (a + 1) (Some e)) = (None, lastErr) \/
          exists e', fst (doGenerate (a + Z.of_nat (S n) - 1)) = Err e' /\
                     fst (retry_loop doGenerate n (a + 1) (Some e)) = (None, Some e')))).
      { intros Hcls tr0 Htr0.
        destruct (IH (a + 1) (Some e))
          as [(k & resp & Hk & Hall & Hok & Hres & Hatt)
             |[(k & e' & ce & Hk & Hall & Hko & Hcr & Hres & Hatt)
              |(Hall & Hatt & Hres)]].
        - left. exists k, resp. split; [lia|].
          split; [intros i Hi; apply (Hstep e c eq_refl Hcls i k); [lia|done|done]|].
          split; [done|]. split; [done|]. rewrite attempts_app, Htr0. lia.
        - right. left. exists k, e', ce. split; [lia|].
          split; [intros i Hi; apply (Hstep e c eq_refl Hcls i k); [lia|done|done]|].
          split; [done|]. split; [done|]. split; [done|].
          rewrite attempts_app, Htr0. lia.
        - right. right.
          split; [intros i Hi;
                  apply (Hstep e c eq_refl Hcls i (a + 1 + Z.of_nat n));
                  [lia|done|lia]|].
          split; [rewrite attempts_app, Htr0, Hatt; lia|]. right.
          destruct Hres as [[-> Hres]|(e' & He' & Hres)].
          + exists e. replace (a + Z.of_nat 1 - 1) with a by lia.
            rewrite Hdg. split; [done|]. by rewrite Hres.
          + exists e'. replace (a + Z.of_nat (S n) - 1) with (a + 1 + Z.of_nat n - 1) by lia.
            by split. }
      destruct (is_crash e) eqn:Hcr.
      * cbn [fst snd].
        replace ((if 1 <? a then [EvSleep (a * 2)] else [])
                   ++ [EvCallStart a; EvCallEnd a] ++ [EvSleep 5]
                   ++ snd (retry_loop doGenerate n (a + 1) (Some e)))
          with (((if 1 <? a then [EvSleep (a * 2)] else [])
                   ++ [EvCallStart a; EvCallEnd a; EvSleep 5])
                  ++ snd (retry_loop doGenerate n (a + 1) (Some e)))
          by (by rewrite <- app_assoc).
        apply Hgo; [by left|]. rewrite attempts_app, attempts_backoff. done.
      * destruct c as [ce|].
        -- right. left. exists a, e, ce. split; [lia|]. split; [intros i Hi; lia|].
           split; [done|]. split; [done|]. split; [done|]. cbn [snd].
           rewrite attempts_app, attempts_backoff. cbn. lia.
        -- cbn [fst snd].
           replace ((if 1 <? a then [EvSleep (a * 2)] else [])
                      ++ [EvCallStart a; EvCallEnd a]
                      ++ snd (retry_loop doGenerate n (a + 1) (Some e)))
             with (((if 1 <? a then [EvSleep (a * 2)] else [])
                      ++ [EvCallStart a; EvCallEnd a])
                     ++ snd (retry_loop doGenerate n (a + 1) (Some e)))
             by (by rewrite <- app_assoc).
           apply Hgo; [by right|]. rewrite attempts_app, attempts_backoff. done.
Qed.

(** X2. Every call of [Generate] ends in one of three ways. It
    returns the response of an attempt [k <= 3], all earlier attempts having
    failed with a transient classification, after [k] requests and with a
    nil error. Or attempt [k] failed without the crash signature while the
    context reported an error, and it returns that context error after [k]
    requests. Or all three attempts failed with a transient classification
    and it returns the error of the third. It never returns two nils. *)
Theorem Generate_outcomes
    (doGenerate : string -> string -> Z -> attempt_outcome)
    (o : OllamaProvider) (prompt : string) (options : option GenerateOptions) :
  let doG := doGenerate (select_model o options) prompt in
  let r := Generate doGenerate o prompt options in
  (exists k resp,
      1 <= k <= 3 /\ (forall i, 1 <= i < k -> transient (doG i)) /\
      fst (doG k) = Ok resp /\
      fst r = (Some resp, None) /\ Z.of_nat (attempts (snd r)) = k) \/
  (exists k e ce,
      1 <= k <= 3 /\ (forall i, 1 <= i < k -> transient (doG i)) /\
      doG k = (Err e, Some ce) /\ is_crash e = false /\
      fst r = (None, Some ce) /\ Z.of_nat (attempts (snd r)) = k) \/
  (exists e,
      (forall i, 1 <= i <= 3 -> transient (doG i)) /\
      fst (doG 3) = Err e /\
      fst r = (None, Some e) /\ attempts (snd r) = 3%nat).
Proof.
  intros doG r. subst r. rewrite Generate_unfold. fold doG. cbn [fst snd].
  assert (Hatt : forall tr, attempts ([EvAcquire] ++ tr ++ [EvRelease]) = attempts tr).
  { intros tr. cbn [app attempts]. rewrite attempts_app. cbn. lia. }
  rewrite Hatt.
  destruct (retry_loop_outcomes doG 3 1 None)
    as [(k & resp & Hk & Hall & Hok & Hres & Hn)
       |[(k & e & ce & Hk & Hall & Hko & Hcr & Hres & Hn)
        |(Hall & Hn & Hres)]].
  - left. exists k, resp. split; [lia|]. split; [done|]. split; [done|].
    split; [done|]. lia.
  - right. left. exists k, e, ce. split; [lia|]. split; [done|]. split; [done|].
    split; [done|]. split; [done|]. lia.
  - right. right. destruct Hres as [[? _]|(e & He & Hres)]; [done|].
    exists e. split; [intros i Hi; apply Hall; lia|]. split; [exact He|]. by split.
Qed.

(** X3. When attempts 1..k-1 fail with a transient classification and
    attempt k (k <= 3) fails without the crash signature while the context
    reports an error, [Generate] sends no further request: it returns the
    context's error after exactly k requests. *)
Theorem Generate_stops_on_cancellation
    (doGenerate : string -> string -> Z -> attempt_outcome)
    (o : OllamaProvider) (prompt : string) (options : option GenerateOptions)
    (k : Z) (e ce : error) :
  let doG := doGenerate (select_model o options) prompt in
  1 <= k <= 3 ->
  (forall i, 1 <= i < k -> transient (doG i)) ->
  doG k = (Err e, Some ce) ->
  is_crash e = false ->
  fst (Generate doGenerate o prompt options) = (None, Some ce) /\
  attempts (snd (Generate doGenerate o prompt options)) = Z.to_nat k.
Proof.
  intros doG Hk Htr Hdg Hcr. rewrite Generate_unfold. fold doG. cbn [fst snd].
  destruct (retry_loop_skip doG (Z.to_nat (k - 1)) (S (Z.to_nat (3 - k))) 1 None)
    as (pre & lastErr' & Heq & Hatt & _).
  { intros i Hi. apply Htr. lia. }
  replace (Z.to_nat (k - 1) + S (Z.to_nat (3 - k)))%nat with 3%nat in Heq by lia.
  replace (1 + Z.of_nat (Z.to_nat (k - 1))) with k in Heq by lia.
  rewrite Heq, (retry_loop_cancelled doG _ k lastErr' e ce Hdg Hcr). cbn [fst snd].
  split; [done|]. cbn [app attempts].
  rewrite !attempts_app, attempts_backoff, Hatt. cbn [attempts]. lia.
Qed.

Lemma Generate_stops_on_cancellation_witness :
  fst (Generate backend_cancelled provider0 "p" None) = (None, Some "context canceled") /\
  attempts (snd (Generate backend_cancelled provider0 "p" None)) = 1%nat.
Proof.
  apply (Generate_stops_on_cancellation backend_cancelled provider0 "p" None 1
           "ollama-anfrage fehlgeschlagen: context canceled" "context canceled");
    [lia | intros i Hi; lia | reflexivity | reflexivity].
Defined.

(** ** The streaming decoder, for every body *)

(** X4. Whatever the decoder reads, it sends at most one chunk per decode
    step; every chunk but the last is a plain content chunk ([done = false],
    no error); and a chunk that carries an error has empty content and is
    not marked done. So nothing is ever sent after a done or error chunk. *)
Theorem stream_loop_terminal_last (steps : list decode_step) :
  let cs := stream_loop steps in
  (length cs <= length steps)%nat /\
  (forall i c, cs !! i = Some c -> (S i < length cs)%nat ->
               chunk_Done c = false /\ chunk_Error c = None) /\
  (forall c, c ∈ cs -> chunk_Error c <> None ->
             chunk_Content c = "" /\ chunk_Done c = false).
Proof.
  induction steps as [|st steps IH]; cbn zeta.
  - split; [done|]. split; [intros i c Hi; by destruct i|].
    by intros c ?%elem_of_nil.
  - cbn zeta in IH. destruct IH as (Hlen & Hmid & Herr).
    destruct st as [r d | | e]; cbn [stream_loop].
    + destruct d.
      * split; [cbn; lia|]. split.
        -- intros [|i] c Hi Hlt; cbn in Hlt; lia.
        -- intros c ->%list_elem_of_singleton. done.
      * split; [cbn; lia|]. split.
        -- intros [|i] c Hi Hlt; cbn in Hi, Hlt.
           ++ by injection Hi as <-.
           ++ apply (Hmid i c Hi). lia.
        -- intros c [->|Hin]%elem_of_cons; [done|by apply Herr].
    + split; [cbn; lia|]. split; [intros i c Hi; by destruct i|].
      by intros c ?%elem_of_nil.
    + split; [cbn; lia|]. split.
      * intros [|i] c Hi Hlt; cbn in Hlt; lia.
      * intros c ->%list_elem_of_singleton. done.
Qed.

(** ** Deduplication, again *)

Lemma dedup_loop_fixed {A} (key : A -> string) (l : list A) :
  NoDup (key <$> l) -> dedup_loop key l = l.
Proof.
  induction l as [|x l IH] using rev_ind; [done|].
  rewrite fmap_app, NoDup_app. intros (Hl & Hx & _).
  rewrite dedup_loop_snoc, bool_decide_eq_false_2.
  - by rewrite IH.
  - intros Hin. apply (Hx _ Hin). by apply list_elem_of_singleton.
Qed.

(** X5. Deduplicating twice is deduplicating once, for documents and for
    topics; and no name is lost: every name of the input (lower-cased, for
    topics) is still the name of a survivor. *)
Theorem deduplicate_idempotent (E : Env) :
  (forall docs, deduplicateDocuments (deduplicateDocuments docs) = deduplicateDocuments docs) /\
  (forall docs d, d ∈ docs -> doc_Name d ∈ doc_Name <$> deduplicateDocuments docs) /\
  (forall topics,
      deduplicateTopics E (deduplicateTopics E topics) = deduplicateTopics E topics) /\
  (forall topics t, t ∈ topics ->
      ToLower E (topic_Name t)
      ∈ (fun t => ToLower E (topic_Name t)) <$> deduplicateTopics E topics).
Proof.
  split; [|split; [|split]].
  - intros docs. apply (dedup_loop_fixed doc_Name), dedup_loop_NoDup.
  - intros docs. apply (dedup_loop_complete doc_Name).
  - intros topics.
    apply (dedup_loop_fixed (fun t => ToLower E (topic_Name t))), dedup_loop_NoDup.
  - intros topics. apply (dedup_loop_complete (fun t => ToLower E (topic_Name t))).
Qed.

(** ** The priority sort on sorted input *)

Lemma select_min_sorted prio x rest :
  Forall (fun t => prio x <= prio t) rest ->
  select_min prio x rest = (x, rest).
Proof.
  induction 1 as [|y ys Hy _ IH]; [done|].
  cbn [select_min]. replace (prio y <? prio x) with false
    by (symmetry; apply Z.ltb_ge; lia).
  by rewrite IH.
Qed.

Lemma selection_sorted_fixed prio n : forall l,
  StronglySorted (fun a b => prio a <= prio b) l ->
  selection prio n l = l.
Proof.
  induction n as [|n IH]; intros l Hs; [by destruct l|].
  destruct Hs as [|x rest Hs Hall]; [done|].
  cbn [selection]. rewrite (select_min_sorted prio x rest Hall). by rewrite IH.
Qed.

(** X6. The sort swaps only on a strictly smaller key: a topic list that
    is already in ascending order of priority key comes back unchanged. In
    particular, when no topic is named in the ranking, the order of the
    topics is kept as it is. *)
Theorem sortByPriority_sorted_unchanged
    (E : Env) (ranking : list string) (topics : list Topic) :
  let prio := priorityOf E (buildPriorityMap E 0 ranking ∅) in
  (StronglySorted (fun a b => prio a <= prio b) topics ->
   sortByPriority E ranking topics = topics) /\
  (Forall (fun t => ToLower E (topic_Name t) ∉ ToLower E <$> ranking) topics ->
   sortByPriority E ranking topics = topics).
Proof.
  intros prio.
  assert (H1 : StronglySorted (fun a b => prio a <= prio b) topics ->
               sortByPriority E ranking topics = topics).
  { intros Hs. unfold sortByPriority. fold prio. rewrite sortTopics_selection.
    by apply selection_sorted_fixed. }
  split; [exact H1|]. intros Hun. apply H1. clear H1.
  induction Hun as [|t ts Ht Hts IH]; constructor; [done|].
  apply Forall_forall. intros t' Ht'. rewrite Forall_forall in Hts.
  subst prio. rewrite (priorityOf_unranked E ranking t Ht).
  rewrite (priorityOf_unranked E ranking t' (Hts t' Ht')). lia.
Qed.

Lemma sortByPriority_sorted_unchanged_witness :
  sortByPriority env0 ["mengen"] [topic_named "Folgen"; topic_named "Reihen"]
  = [topic_named "Folgen"; topic_named "Reihen"].
Proof.
  destruct (sortByPriority_sorted_unchanged env0 ["mengen"]
              [topic_named "Folgen"; topic_named "Reihen"]) as [_ H].
  apply H. repeat constructor; cbn; intros Hin%list_elem_of_singleton; discriminate Hin.
Defined.

(** ** Categories of documents *)

Lemma categorize_fold (E : Env) (docs : list Document) : forall main exams,
  foldl (fun '(main, exams) doc =>
           let nameLower := ToLower E (doc_Name doc) in
           if Contains nameLower "klausur" || Contains nameLower "übung"
           then (main, exams ++ [doc])
           else (main ++ [doc], exams))
        (main, exams) docs
  = (main ++ filter (fun d => isExamName E d = false) docs,
     exams ++ filter (fun d => isExamName E d = true) docs).
Proof.
  induction docs as [|doc docs IH]; intros main exams.
  - cbn. by rewrite !app_nil_r.
  - cbn [foldl]. cbn zeta. rewrite filter_cons, (filter_cons (fun d => isExamName E d = true)).
    fold (isExamName E doc). destruct (isExamName E doc) eqn:Hx.
    + rewrite IH. rewrite decide_False by done. rewrite decide_True by done.
      by rewrite <- app_assoc.
    + rewrite IH. rewrite decide_True by done. rewrite decide_False by done.
      by rewrite <- app_assoc.
Qed.

(** X7. [categorizeDocuments] splits the documents in two without losing
    or repeating any and without changing their order: the exam documents
    are exactly those whose lower-cased name contains "klausur" or "übung",
    in input order, and the main documents are all the others, in input
    order. *)
Theorem categorizeDocuments_partition (E : Env) (docs : list Document) :
  categorizeDocuments E docs
  = (filter (fun d => isExamName E d = false) docs,
     filter (fun d => isExamName E d = true) docs) /\
  fst (categorizeDocuments E docs) ++ snd (categorizeDocuments E docs) ≡ₚ docs.
Proof.
  assert (H : categorizeDocuments E docs
              = (filter (fun d => isExamName E d = false) docs,
                 filter (fun d => isExamName E d = true) docs))
    by exact (categorize_fold E docs [] []).
  split; [exact H|]. rewrite H. cbn [fst snd]. clear H.
  induction docs as [|d docs IH]; [done|].
  rewrite !filter_cons. destruct (isExamName E d).
  - rewrite decide_False by done. rewrite decide_True by done.
    rewrite <- Permutation_middle. by constructor.
  - rewrite decide_True by done. rewrite decide_False by done.
    cbn [app]. by constructor.
Qed.

(** ** Budgets *)

Lemma substring_prefix_length (k : nat) (s : string) :
  String.length (String.substring 0 k s) = Nat.min k (String.length s).
Proof.
  revert k. induction s as [|a s IH]; intros [|k]; cbn; try done.
  by rewrite IH.
Qed.

Lemma substring_prefix_split (k : nat) (s : string) :
  exists rest, s = String.substring 0 k s +:+ rest.
Proof.
  revert k. induction s as [|a s IH]; intros [|k]; cbn.
  - by exists "".
  - by exists "".
  - by exists (String a s).
  - destruct (IH k) as [rest Hrest]. exists rest. by rewrite <- Hrest.
Qed.

Lemma len_truncate (n : Z) (s : string) :
  0 <= n -> len (truncate n s) = Z.min n (len s).
Proof.
  intros Hn. unfold truncate. destruct (n <? len s) eqn:Hlt.
  - apply Z.ltb_lt in Hlt. unfold slice, len in *.
    rewrite substring_prefix_length. lia.
  - apply Z.ltb_ge in Hlt. lia.
Qed.

(** X8. For a budget [n >= 0], the truncation used before prompting keeps
    a prefix of the text, of [min n (len text)] bytes: a text within the
    budget is passed unchanged, a longer one is cut to exactly [n] bytes
    and nothing is appended. *)
Theorem truncate_spec (n : Z) (s : string) :
  0 <= n ->
  (exists rest, s = truncate n s +:+ rest) /\
  len (truncate n s) = Z.min n (len s) /\
  (len s <= n -> truncate n s = s).
Proof.
  intros Hn. split; [|split].
  - unfold truncate. destruct (n <? len s).
    + unfold slice. apply substring_prefix_split.
    + exists "". clear. induction s as [|a s IH]; cbn; [done|]. by rewrite <- IH.
  - by apply len_truncate.
  - intros Hle. unfold truncate.
    by replace (n <? len s) with false by (symmetry; apply Z.ltb_ge; lia).
Qed.

Lemma truncate_spec_witness :
  truncate 4 "Analysis" = "Anal" /\ truncate 4000 "Analysis" = "Analysis".
Proof.
  split; [reflexivity|].
  apply (truncate_spec 4000 "Analysis"); [lia|]. vm_compute. discriminate.
Defined.

Lemma len_append (a b : string) : len (a +:+ b) = len a + len b.
Proof. unfold len. rewrite append_length. lia. Qed.

Lemma collectExamContent_bound (docs : list Document) : forall acc,
  len acc <= 10000 ->
  len acc <= len (collectExamContent acc docs) <= 12001.
Proof.
  induction docs as [|doc docs IH]; intros acc Hacc; cbn [collectExamContent].
  - lia.
  - cbn zeta.
    assert (Hlen : len (acc +:+ truncate 2000 (doc_Content doc) +:+ newline)
                   = len acc + Z.min 2000 (len (doc_Content doc)) + 1).
    { rewrite !len_append, len_truncate by lia. unfold newline, len. cbn. lia. }
    assert (0 <= len (doc_Content doc)) by (unfold len; lia).
    destruct (10000 <? _) eqn:Hlt.
    + lia.
    + apply Z.ltb_ge in Hlt. specialize (IH _ Hlt). lia.
Qed.

(** X9. The exam text put into the ranking prompt is never longer than
    12001 bytes, however many exam documents there are and however long
    they are: the loop stops once it has passed 10000 bytes, and each
    document adds at most 2000 bytes and a newline. The bound is reached
    (so the text can exceed 10000 bytes by 2001). *)
Theorem collectExamContent_le (examDocs : list Document) :
  0 <= len (collectExamContent "" examDocs) <= 12001 /\
  len (collectExamContent ""
         [doc_of_size 2000; doc_of_size 2000; doc_of_size 2000; doc_of_size 2000;
          doc_of_size 1995; doc_of_size 3000; doc_of_size 10]) = 12001.
Proof.
  split.
  - assert (H0 : len "" <= 10000) by (vm_compute; discriminate).
    pose proof (collectExamContent_bound examDocs "" H0) as H.
    change (len "") with 0 in H. lia.
  - vm_compute. reflexivity.
Qed.

(** ** The pipeline: what it sends and what it returns *)

Lemma ProviderGenerate_first_ok (E : Env) (w : World) prompt options resp :
  fst (backend E (length (history w)) (select_model (provider w) options) prompt 1)
  = Ok resp ->
  fst (ProviderGenerate E w prompt options) = Ok resp.
Proof.
  intros Hok. unfold ProviderGenerate. rewrite Generate_unfold.
  cbv beta iota. cbn [fst]. rewrite retry_loop_step. cbv zeta.
  destruct (backend E _ _ _ 1) as [res c]. cbn [fst] in Hok. by subst res.
Qed.

Lemma fast_or_current_SetModel (cfg : ParallelAgentConfig) (o : OllamaProvider) :
  FastModel cfg <> "" ->
  select_model (SetModel o (FastModel cfg))
    (Some (mkOptions "" "Du bist ein Lernassistent. Antworte kurz und nur im JSON-Format."))
  = fast_or_current cfg o.
Proof.
  intros Hfast. cbn [select_model opt_Model]. rewrite decide_True by done.
  unfold fast_or_current. rewrite decide_False by done.
  unfold SetModel. by rewrite decide_False.
Qed.

(** What one analysis leaves behind, for every configuration. *)
Lemma analyzeOneDocument_effect (E : Env) (cfg : ParallelAgentConfig) (w : World) doc :
  history (snd (analyzeOneDocument E cfg w doc))
  = history w ++ [analysis_request E cfg (provider w) doc] /\
  fast_or_current cfg (provider (snd (analyzeOneDocument E cfg w doc)))
  = fast_or_current cfg (provider w) /\
  (GetCurrentModel (provider w) <> "" ->
   provider (snd (analyzeOneDocument E cfg w doc)) = provider w).
Proof.
  unfold analyzeOneDocument, analysis_request.
  match goal with
  | |- context [ProviderGenerate E ?w1 ?p ?opts] =>
      pose proof (ProviderGenerate_world E w1 p opts) as Hw;
      destruct (ProviderGenerate E w1 p opts) as [r w2]
  end.
  cbn [snd] in Hw. subst w2.
  destruct (decide (FastModel cfg = "")) as [Hf|Hf].
  - rewrite (bool_decide_eq_false_2 (FastModel cfg ≠ "")) by (intros ?; done).
    cbn [andb]. unfold fast_or_current. rewrite !decide_True by done.
    cbn [select_model opt_Model provider history]. rewrite decide_True by done.
    by destruct r.
  - rewrite (bool_decide_eq_true_2 (FastModel cfg ≠ "")) by done. cbn [andb].
    case_bool_decide as Hd.
    + cbn [with_provider provider history]. rewrite (fast_or_current_SetModel cfg _ Hf).
      assert (Hres : forall a b : result (list Topic) * World,
                 snd a = snd b -> True) by done.
      assert (Hfc : fast_or_current cfg
                      (SetModel (SetModel (provider w) (FastModel cfg))
                         (GetCurrentModel (provider w)))
                    = fast_or_current cfg (provider w)).
      { unfold fast_or_current. by rewrite !decide_False. }
      assert (Hpr : GetCurrentModel (provider w) <> "" ->
                    SetModel (SetModel (provider w) (FastModel cfg))
                      (GetCurrentModel (provider w)) = provider w)
        by (intros ?; by apply SetModel_restore).
      by destruct r.
    + cbn [select_model opt_Model provider history]. rewrite decide_True by done.
      assert (Heq : GetCurrentModel (provider w) = FastModel cfg)
        by (symmetry; first [exact Hd | apply dec_stable; exact Hd]).
      unfold fast_or_current. rewrite !decide_False by done.
      unfold GetCurrentModel in Heq. rewrite Heq. by destruct r.
Qed.

Lemma analyzeDocumentsSequentially_effect (E : Env) (cfg : ParallelAgentConfig)
    (docs : list Document) : forall w,
  history (snd (analyzeDocumentsSequentially E cfg w docs))
  = history w ++ (analysis_request E cfg (provider w) <$> docs) /\
  fast_or_current cfg (provider (snd (analyzeDocumentsSequentially E cfg w docs)))
  = fast_or_current cfg (provider w) /\
  (GetCurrentModel (provider w) <> "" ->
   provider (snd (analyzeDocumentsSequentially E cfg w docs)) = provider w).
Proof.
  induction docs as [|doc docs IH]; intros w.
  - cbn. by rewrite app_nil_r.
  - rewrite analyzeDocumentsSequentially_cons.
    destruct (analyzeOneDocument_effect E cfg w doc) as (Hh & Hf & Hp).
    destruct (analyzeOneDocument E cfg w doc) as [r w1]. cbn [snd] in Hh, Hf, Hp.
    destruct (IH w1) as (Hh' & Hf' & Hp').
    destruct (analyzeDocumentsSequentially E cfg w1 docs) as [ts w2].
    cbn [snd] in *. split; [|split].
    + rewrite Hh', Hh, <- app_assoc. cbn [fmap list_fmap app]. f_equal. f_equal.
      apply list_fmap_ext. intros ? d ?. unfold analysis_request. by rewrite Hf.
    + by rewrite Hf', Hf.
    + intros Hne. specialize (Hp Hne). rewrite Hp in Hp'. by rewrite Hp'.
Qed.

Lemma prioritizeWithExams_snd (E : Env) (cfg : ParallelAgentConfig) (w : World)
    topics examDocs :
  snd (prioritizeWithExams E cfg w topics examDocs)
  = if bool_decide (length examDocs = 0%nat) || bool_decide (length topics = 0%nat)
    then w
    else
      let w1 := if bool_decide (FastModel cfg ≠ "")
                then with_provider w (SetModel (provider w) (FastModel cfg)) else w in
      let w2 := snd (ProviderGenerate E w1
                       (priorityPrompt E (Join (topic_Name <$> topics) ", ")
                          (collectExamContent "" examDocs))
                       (Some (mkOptions ""
                          "Du bist ein Prüfungsexperte. Antworte nur im JSON-Format."))) in
      if bool_decide (FastModel cfg ≠ "")
      then with_provider w2 (SetModel (provider w2) (GetCurrentModel (provider w)))
      else w2.
Proof.
  unfold prioritizeWithExams. destruct (_ || _); [done|]. cbv zeta.
  destruct (ProviderGenerate _ _ _ _) as [r w2]. cbn [snd].
  repeat case_match; reflexivity.
Qed.

Lemma prioritizeWithExams_effect (E : Env) (cfg : ParallelAgentConfig) (w : World)
    topics examDocs :
  (exists extra, history (snd (prioritizeWithExams E cfg w topics examDocs))
                 = history w ++ extra /\ (length extra <= 1)%nat) /\
  (GetCurrentModel (provider w) <> "" ->
   provider (snd (prioritizeWithExams E cfg w topics examDocs)) = provider w).
Proof.
  rewrite prioritizeWithExams_snd. destruct (_ || _).
  { split; [exists []; split; [by rewrite app_nil_r|cbn; lia]|done]. }
  cbv zeta. rewrite ProviderGenerate_world.
  case_bool_decide as Hf; cbn [with_provider provider history].
  - split; [eexists; split; [reflexivity|cbn; lia]|].
    intros Hne. by apply SetModel_restore.
  - split; [eexists; split; [reflexivity|cbn; lia]|done].
Qed.

Lemma prioritizeWithExams_perm (E : Env) (cfg : ParallelAgentConfig) (w : World)
    topics examDocs ts :
  fst (prioritizeWithExams E cfg w topics examDocs) = Returns ts -> ts ≡ₚ topics.
Proof.
  unfold prioritizeWithExams. destruct (_ || _); [by intros [= <-]|].
  destruct (ProviderGenerate _ _ _ _) as [r w2].
  repeat case_match; cbn [fst]; intros Heq; simplify_eq; try done;
    unfold sortByPriority; apply sortTopics_perm.
Qed.

(** X10. Whenever the pipeline returns a topic list, no two of its topics
    have the same lower-cased name, every topic in it was produced by the
    analysis of a main document, and every name the analysis produced is
    still there (up to case). Re-ranking never drops or invents a topic. *)
Theorem AnalyzeDocumentsParallel_output
    (E : Env) (cfg : ParallelAgentConfig) (w : World) (documents : list Document)
    (topics : list Topic) (err : option error) (w' : World) :
  let key := fun t => ToLower E (topic_Name t) in
  let mainTopics :=
    fst (analyzeDocumentsSequentially E cfg w
           (fst (categorizeDocuments E (deduplicateDocuments documents)))) in
  AnalyzeDocumentsParallel E cfg w documents = (Returns (topics, err), w') ->
  NoDup (key <$> topics) /\
  (forall t, t ∈ topics -> t ∈ mainTopics) /\
  (forall t, t ∈ mainTopics -> key t ∈ key <$> topics).
Proof.
  intros key mainTopics. subst mainTopics. unfold AnalyzeDocumentsParallel.
  destruct (categorizeDocuments E (deduplicateDocuments documents)) as [mainDocs examDocs].
  cbn [fst].
  destruct (analyzeDocumentsSequentially E cfg w mainDocs) as [mainTopics w1].
  cbn [fst].
  assert (Hfinal : forall ranked, ranked ≡ₚ mainTopics ->
            NoDup (key <$> deduplicateTopics E ranked) /\
            (forall t, t ∈ deduplicateTopics E ranked -> t ∈ mainTopics) /\
            (forall t, t ∈ mainTopics -> key t ∈ key <$> deduplicateTopics E ranked)).
  { intros ranked Hperm. split; [apply (dedup_loop_NoDup key)|]. split.
    - intros t Ht. rewrite <- Hperm.
      eapply elem_of_sublist; [exact Ht|apply (dedup_loop_sublist key)].
    - intros t Ht. apply (dedup_loop_complete key). by rewrite Hperm. }
  destruct (_ && _).
  - pose proof (prioritizeWithExams_perm E cfg w1 mainTopics examDocs) as Hperm.
    destruct (prioritizeWithExams E cfg w1 mainTopics examDocs) as [[ranked|msg] w2];
      intros Heq; simplify_eq. apply Hfinal. by apply Hperm.
  - intros Heq. simplify_eq. by apply Hfinal.
Qed.

(** Here the analysis yields Folgen, folgen, Reihen and the ranking names
    reihen: the sort brings Reihen to the front by a swap with Folgen, so it
    is "folgen", not "Folgen", that survives the deduplication. *)
Lemma AnalyzeDocumentsParallel_output_witness :
  NoDup ((fun t => ToLowerASCII (topic_Name t))
           <$> [toTopic (mkRawTopic "Reihen" "" 3 45); toTopic (mkRawTopic "folgen" "" 2 30)]).
Proof.
  refine (proj1 (AnalyzeDocumentsParallel_output (env_answering "{}") config0 world0
                   [doc_named "Skript.pdf"; doc_named "Klausur 2023.pdf"]
                   [toTopic (mkRawTopic "Reihen" "" 3 45);
                    toTopic (mkRawTopic "folgen" "" 2 30)]
                   None _ _)).
  vm_compute. reflexivity.
Defined.

(** X11. The pipeline sends one analysis request per main document, in the
    order of the documents, each with the fast model when one is configured
    (else the provider's current model) and with the document text cut to
    4000 bytes; after them it sends at most one more request, the ranking
    one, and none at all when there is no exam document. Exam documents are
    never analysed for topics. *)
Theorem AnalyzeDocumentsParallel_requests
    (E : Env) (cfg : ParallelAgentConfig) (w : World) (documents : list Document) :
  let mainDocs := fst (categorizeDocuments E (deduplicateDocuments documents)) in
  let examDocs := snd (categorizeDocuments E (deduplicateDocuments documents)) in
  exists extra,
    history (snd (AnalyzeDocumentsParallel E cfg w documents))
    = history w ++ (analysis_request E cfg (provider w) <$> mainDocs) ++ extra /\
    (length extra <= 1)%nat /\
    (examDocs = [] -> extra = []).
Proof.
  cbn zeta. unfold AnalyzeDocumentsParallel.
  destruct (categorizeDocuments E (deduplicateDocuments documents)) as [mainDocs examDocs].
  cbn [fst snd].
  destruct (analyzeDocumentsSequentially_effect E cfg mainDocs w) as (Hh & _ & _).
  destruct (analyzeDocumentsSequentially E cfg w mainDocs) as [mainTopics w1].
  cbn [snd] in Hh.
  destruct (bool_decide (0 < length examDocs)%nat) eqn:Hex; cbn [andb].
  - destruct (bool_decide (0 < length mainTopics)%nat).
    + destruct (prioritizeWithExams_effect E cfg w1 mainTopics examDocs)
        as [(extra & Hext & Hlen) _].
      destruct (prioritizeWithExams E cfg w1 mainTopics examDocs) as [[ranked|msg] w2];
        cbn [snd] in *; exists extra; rewrite Hext, Hh, <- app_assoc;
        (split; [done|]); (split; [done|]); intros ->;
        apply bool_decide_eq_true in Hex; cbn in Hex; lia.
    + exists []. cbn [snd]. rewrite Hh, app_nil_r. split; [done|]. split; [cbn; lia|done].
  - exists []. cbn [snd]. rewrite Hh, app_nil_r. split; [done|]. split; [cbn; lia|done].
Qed.

(** X12. When the provider's current model is a non-empty name, the whole
    pipeline leaves the provider as it found it, for every configuration,
    every backend behaviour, and also when it ends by a panic. *)
Theorem AnalyzeDocumentsParallel_keeps_provider
    (E : Env) (cfg : ParallelAgentConfig) (w : World) (documents : list Document) :
  GetCurrentModel (provider w) <> "" ->
  provider (snd (AnalyzeDocumentsParallel E cfg w documents)) = provider w.
Proof.
  intros Hne. unfold AnalyzeDocumentsParallel.
  destruct (categorizeDocuments E (deduplicateDocuments documents)) as [mainDocs examDocs].
  destruct (analyzeDocumentsSequentially_effect E cfg mainDocs w) as (_ & _ & Hp).
  destruct (analyzeDocumentsSequentially E cfg w mainDocs) as [mainTopics w1].
  cbn [snd] in Hp. specialize (Hp Hne).
  destruct (_ && _).
  - destruct (prioritizeWithExams_effect E cfg w1 mainTopics examDocs) as [_ Hp2].
    rewrite Hp in Hp2. specialize (Hp2 Hne).
    destruct (prioritizeWithExams E cfg w1 mainTopics examDocs) as [[ranked|msg] w2];
      cbn [snd] in *; by rewrite Hp2.
  - done.
Qed.

Lemma AnalyzeDocumentsParallel_keeps_provider_witness :
  provider (snd (AnalyzeDocumentsParallel (env_answering "{}") config0 world0
                   [doc_named "Skript.pdf"; doc_named "Klausur 2023.pdf"]))
  = provider0.
Proof.
  apply (AnalyzeDocumentsParallel_keeps_provider (env_answering "{}") config0 world0).
  discriminate.
Defined.

(** ** The inline extraction of the ranking *)

Lemma Contains_byte_app (c : ascii) (a b : string) :
  Contains (a +:+ b) (String c EmptyString)
  = Contains a (String c EmptyString) || Contains b (String c EmptyString).
Proof.
  induction a as [|x a IH]; [done|].
  cbn [String.append]. rewrite !Contains_cons, IH. by rewrite orb_assoc.
Qed.

Lemma length_pos_of_nonempty (v : string) : v <> "" -> 0 < len v.
Proof. destruct v; [done|]. intros _. unfold len. cbn [String.length]. lia. Qed.

(** X13. A ranking reply in which the only closing brace stands before the
    only opening brace, with something between them, makes
    [prioritizeWithExams] panic on its slice expression, where [extractJSON]
    on the same text returns the empty object. The backend is one that
    answers the first attempt of every request with that reply. *)
Theorem prioritizeWithExams_reversed_braces
    (E : Env) (cfg : ParallelAgentConfig) (w : World)
    (topics : list Topic) (examDocs : list Document)
    (resp : GenerateResponse) (u v y : string) :
  topics <> [] -> examDocs <> [] ->
  (forall k model prompt, fst (backend E k model prompt 1) = Ok resp) ->
  resp_Content resp = u +:+ "}" +:+ v +:+ "{" +:+ y ->
  Contains u "{" = false -> Contains v "{" = false ->
  Contains v "}" = false -> Contains y "}" = false ->
  v <> "" ->
  fst (prioritizeWithExams E cfg w topics examDocs) = Panics "slice bounds out of range" /\
  extractJSON (resp_Content resp) = "{}".
Proof.
  intros Ht Hd Hback Hc Hu Hv Hv' Hy Hne.
  pose proof (length_pos_of_nonempty v Hne) as Hlen.
  assert (Hs : Index (resp_Content resp) "{" = len u + 1 + len v).
  { rewrite Hc.
    replace (u +:+ "}" +:+ v +:+ "{" +:+ y) with ((u +:+ "}" +:+ v) +:+ String "{" y)
      by (rewrite !append_assoc; reflexivity).
    rewrite (Index_first "{"%char).
    - rewrite !len_append. change (len "}") with 1. lia.
    - rewrite !(Contains_byte_app "{"%char), Hu, Hv. reflexivity. }
  assert (He : LastIndex (resp_Content resp) "}" = len u).
  { rewrite Hc. apply (LastIndex_last "}"%char).
    rewrite (Contains_byte_app "}"%char), Hv'.
    change ("{" +:+ y) with (String "{" y). rewrite Contains_cons, Hy. reflexivity. }
  assert (Hu0 : 0 <= len u) by (unfold len; lia).
  split.
  - unfold prioritizeWithExams.
    rewrite (bool_decide_eq_false_2 (length examDocs = 0%nat))
      by (by destruct examDocs).
    rewrite (bool_decide_eq_false_2 (length topics = 0%nat)) by (by destruct topics).
    cbn [orb]. cbv zeta.
    match goal with
    | |- context [ProviderGenerate E ?w1 ?p ?opts] =>
        pose proof (ProviderGenerate_first_ok E w1 p opts resp (Hback _ _ _)) as Hok;
        destruct (ProviderGenerate E w1 p opts) as [r w2]
    end.
    cbn [fst] in Hok. subst r. rewrite Hs, He.
    replace (len u + 1 + len v =? -1) with false by (symmetry; apply Z.eqb_neq; lia).
    replace (len u =? -1) with false by (symmetry; apply Z.eqb_neq; lia).
    cbn [negb andb]. unfold slice_checked.
    replace (len u + 1 + len v <=? len u + 1) with false
      by (symmetry; apply Z.leb_gt; lia).
    rewrite andb_false_r. reflexivity.
  - unfold extractJSON. rewrite Hs, He.
    replace (len u <=? len u + 1 + len v) with true by (symmetry; apply Z.leb_le; lia).
    by rewrite orb_true_r.
Qed.

Lemma prioritizeWithExams_reversed_braces_witness :
  fst (prioritizeWithExams (env_answering "} nichts {") config0 world0
         [topic_named "Folgen"] [doc_named "Klausur 2023.pdf"])
  = Panics "slice bounds out of range" /\
  extractJSON "} nichts {" = "{}".
Proof.
  apply (prioritizeWithExams_reversed_braces (env_answering "} nichts {") config0 world0
           [topic_named "Folgen"] [doc_named "Klausur 2023.pdf"]
           (mkResponse "} nichts {" "llama3.2:3b" true) "" " nichts " "");
    try reflexivity; discriminate.
Defined.

(** ** The extractor on every text *)

Lemma Contains_byte_first (c : ascii) (s : string) :
  Contains s (String c EmptyString) = true ->
  exists pre rest,
    s = pre +:+ String c rest /\ Contains pre (String c EmptyString) = false.
Proof.
  induction s as [|a s IH]; [done|].
  rewrite Contains_cons. destruct (decide (c = a)) as [->|Hne].
  - intros _. by exists "", s.
  - rewrite bool_decide_eq_false_2 by done. cbn [orb]. intros Hs.
    destruct (IH Hs) as (pre & rest & -> & Hpre).
    exists (String a pre), rest. split; [done|].
    by rewrite Contains_cons, bool_decide_eq_false_2, Hpre.
Qed.

Lemma Contains_byte_last (c : ascii) (s : string) :
  Contains s (String c EmptyString) = true ->
  exists x post,
    s = x +:+ String c post /\ Contains post (String c EmptyString) = false.
Proof.
  induction s as [|a s IH]; [done|].
  rewrite Contains_cons. destruct (Contains s (String c EmptyString)) eqn:Hs.
  - intros _. destruct (IH eq_refl) as (x & post & -> & Hpost).
    by exists (String a x), post.
  - rewrite orb_false_r. intros ->%bool_decide_eq_true. by exists "", s.
Qed.

Lemma append_eq_split (a b c d : string) :
  a +:+ b = c +:+ d -> len a <= len c ->
  exists m, c = a +:+ m /\ b = m +:+ d.
Proof.
  revert c. induction a as [|x a IH]; intros c Heq Hlen.
  - by exists c.
  - destruct c as [|z c]; [unfold len in Hlen; cbn in Hlen; lia|].
    cbn [String.append] in Heq. injection Heq as -> Heq.
    destruct (IH c Heq) as (m & -> & ->); [unfold len in *; cbn in Hlen; lia|].
    by exists m.
Qed.

Lemma extractJSON_cases (text : string) :
  extractJSON text = "{}" \/
  exists pre mid post,
    text = pre +:+ "{" +:+ mid +:+ "}" +:+ post /\
    Contains pre "{" = false /\ Contains post "}" = false /\
    extractJSON text = "{" +:+ mid +:+ "}".
Proof.
  destruct (Contains text "{") eqn:Ho;
    [|left; apply extractJSON_absent; by left].
  destruct (Contains text "}") eqn:Hc;
    [|left; apply extractJSON_absent; right; by left].
  destruct (Contains_byte_first "{"%char text Ho) as (pre & rest & Htext & Hpre).
  destruct (Contains_byte_last "}"%char text Hc) as (x & post & Htext' & Hpost).
  destruct (decide (len x < len pre)) as [Hlt|Hge].
  - left. apply extractJSON_absent. right. right.
    exists pre, rest, x, post. by repeat split.
  - right.
    assert (Heq : pre +:+ String "{" rest = x +:+ String "}" post) by congruence.
    destruct (append_eq_split _ _ _ _ Heq ltac:(lia)) as (m & Hx & Hrest).
    destruct m as [|z mid]; [discriminate Hrest|].
    cbn [String.append] in Hrest. injection Hrest as <- ->.
    exists pre, mid, post.
    assert (Ht : text = pre +:+ "{" +:+ mid +:+ "}" +:+ post) by (rewrite Htext; done).
    split; [exact Ht|]. split; [done|]. split; [done|].
    rewrite Ht. by apply extractJSON_payload.
Qed.

(** X14. On every text, [extractJSON] returns a string that opens with a
    brace and closes with a brace: either the empty object, or the part of
    the text from its first opening brace to its last closing brace. And it
    is idempotent: extracting from its own result changes nothing. *)
Theorem extractJSON_total (text : string) :
  (exists mid, extractJSON text = "{" +:+ mid +:+ "}") /\
  (extractJSON text = "{}" \/
   exists pre mid post,
     text = pre +:+ "{" +:+ mid +:+ "}" +:+ post /\
     Contains pre "{" = false /\ Contains post "}" = false /\
     extractJSON text = "{" +:+ mid +:+ "}") /\
  extractJSON (extractJSON text) = extractJSON text.
Proof.
  pose proof (extractJSON_cases text) as Hcases.
  split; [|split; [exact Hcases|]].
  - destruct Hcases as [->|(pre & mid & post & _ & _ & _ & ->)]; [by exists ""|by exists mid].
  - destruct Hcases as [->|(pre & mid & post & _ & _ & _ & ->)]; [reflexivity|].
    exact (extractJSON_payload "" mid "" eq_refl eq_refl).
Qed.

(** ** The admission gate never blocks for good *)

Lemma step_progress (s : sys) (i : nat) (ev : event) (rest : list event) :
  threads s !! i = Some (ev :: rest) ->
  (ev = EvAcquire -> (sem s < 1)%nat) ->
  (ev = EvRelease -> (0 < sem s)%nat) ->
  step s i <> s.
Proof.
  intros Hi Hacq Hrel Heq.
  assert (Hlt : (i < length (threads s))%nat) by (by eapply lookup_lt_Some).
  assert (Hth : threads (step s i) !! i = Some rest).
  { unfold step. rewrite Hi.
    destruct ev; try case_decide; cbn [threads];
      try (by apply list_lookup_insert_eq).
    - exfalso. auto.
    - exfalso. auto. }
  rewrite Heq, Hi in Hth. injection Hth as Hth.
  apply (f_equal length) in Hth. cbn in Hth. lia.
Qed.

Lemma sum_list_with_pos {A} (f : A -> nat) (l : list A) :
  (0 < sum_list_with f l)%nat -> exists i x, l !! i = Some x /\ (0 < f x)%nat.
Proof.
  induction l as [|y l IH]; cbn [sum_list_with]; [lia|]. intros Hpos.
  destruct (decide (0 < f y)%nat) as [Hy|Hy].
  - by exists 0%nat, y.
  - destruct IH as (i & x & Hi & Hx); [lia|]. by exists (S i), x.
Qed.

Lemma sum_list_with_zero {A} (f : A -> nat) (l : list A) :
  Forall (fun x => f x = 0%nat) l -> sum_list_with f l = 0%nat.
Proof. induction 1 as [|x l Hx _ IH]; cbn [sum_list_with]; lia. Qed.

(** X16. Callers of [Generate] never deadlock on the semaphore: in every
    reachable state in which some caller has not finished, some caller can
    take a step. And once all callers have finished, the semaphore is empty
    and no request is open. *)
Theorem Generate_no_deadlock (cs : list invocation) (schedule : list nat) :
  let s := run schedule (start (Generate_events <$> cs)) in
  ((exists i p, threads s !! i = Some p /\ p <> []) -> exists j, step s j <> s) /\
  (Forall (fun p => p = []) (threads s) -> sem s = 0%nat /\ inflight s = 0%nat).
Proof.
  cbn zeta.
  destruct (gate_invariant_run schedule _ (gate_invariant_start cs))
    as (Hall & Hsem & Hfly & Hcap).
  set (s := run schedule (start (Generate_events <$> cs))) in *.
  split.
  - intros (i & p & Hi & Hp).
    destruct (decide (0 < sem s)%nat) as [Hpos|Hzero].
    + rewrite Hsem in Hpos.
      destruct (sum_list_with_pos holds _ Hpos) as (j & q & Hj & Hq).
      exists j. unfold holds in Hq.
      destruct q as [|ev rest]; [cbn in Hq; lia|].
      apply (step_progress s j ev rest Hj).
      * intros ->. cbn [phase_of] in Hq. destruct (gated rest); lia.
      * intros _. pose proof (sum_list_with_lookup_le holds _ j _ Hj) as Hle.
        unfold holds at 1 in Hle. rewrite <- Hsem in Hle. lia.
    + exists i. destruct p as [|ev rest]; [done|].
      apply (step_progress s i ev rest Hi); [lia|].
      intros ->. exfalso.
      rewrite Forall_forall in Hall.
      destruct (Hall (EvRelease :: rest)) as [ph Hph];
        [apply list_elem_of_lookup; eauto|].
      pose proof (sum_list_with_lookup_le holds _ i _ Hi) as Hle.
      rewrite (holds_phase _ _ Hph), <- Hsem in Hle.
      cbn [phase_of gated] in Hph. destruct rest; [|done].
      injection Hph as <-. lia.
  - intros Hdone. rewrite Hsem, Hfly. split; apply sum_list_with_zero;
      (eapply Forall_impl; [exact Hdone|]); by intros p ->.
Qed.

Lemma Generate_no_deadlock_witness :
  exists j,
    step (run [0%nat] (start (Generate_events
                                <$> [(backend_down, provider0, "p", None);
                                     (backend_down, provider0, "q", None)]))) j
    <> run [0%nat] (start (Generate_events
                             <$> [(backend_down, provider0, "p", None);
                                  (backend_down, provider0, "q", None)])).
Proof.
  apply (Generate_no_deadlock [(backend_down, provider0, "p", None);
                               (backend_down, provider0, "q", None)] [0%nat]).
  exists 1%nat. eexists. split; [vm_compute; reflexivity|discriminate].
Defined.

(** ** One request: how its failures are classified *)

Lemma HasPrefix_append (sub b : string) : HasPrefix (sub +:+ b) sub = true.
Proof.
  unfold HasPrefix. induction sub as [|x sub IH]; cbn.
  - by destruct b.
  - destruct (ascii_dec x x); [exact IH|done].
Qed.

Lemma index_from_found (sub b : string) (a : string) : forall i,
  0 <= i -> 0 <= index_from i (a +:+ sub +:+ b) sub.
Proof.
  induction a as [|x a IH]; intros i Hi.
  - cbn [String.append].
    destruct (sub +:+ b) eqn:Heq; cbn [index_from];
      rewrite <- Heq, HasPrefix_append; lia.
  - cbn [String.append index_from]. destruct (HasPrefix _ _); [lia|].
    apply IH. lia.
Qed.

(** A text contains each of its infixes. *)
Lemma Contains_infix (a sub b : string) : Contains (a +:+ sub +:+ b) sub = true.
Proof. unfold Contains, Index. apply Z.leb_le. by apply index_from_found. Qed.

(** X17. How one request fails decides whether it is retried as a crash.
    A reply with status 500 always is, whatever its body. So is any reply
    other than 200 whose body mentions "terminated", and any network error
    whose text holds "500" (a port or an address, for instance). A response
    is returned only for a reply with status 200. *)
Theorem doGenerate_crash_signature :
  (forall body decoded,
      exists e, doGenerate (HttpReply 500 body decoded) = Err e /\ is_crash e = true) /\
  (forall status a b decoded,
      status <> 200 ->
      exists e, doGenerate (HttpReply status (a +:+ "terminated" +:+ b) decoded) = Err e /\
                is_crash e = true) /\
  (forall a b,
      exists e, doGenerate (NetworkError (a +:+ "500" +:+ b)) = Err e /\
                is_crash e = true) /\
  (forall outcome resp,
      doGenerate outcome = Ok resp ->
      exists body, outcome
                   = HttpReply 200 body (Ok (resp_Content resp, resp_Model resp, resp_Done resp))).
Proof.
  split; [|split; [|split]].
  - intros body decoded. eexists. split; [reflexivity|].
    unfold is_crash. apply orb_true_iff. right.
    change (itoa 500) with "500".
    exact (Contains_infix "ollama-fehler (" "500" ("): " +:+ body)).
  - intros status a b decoded Hst.
    exists ("ollama-fehler (" +:+ itoa status +:+ "): " +:+ a +:+ "terminated" +:+ b).
    split.
    + unfold doGenerate. by rewrite (proj2 (Z.eqb_neq status 200) Hst).
    + unfold is_crash. apply orb_true_iff. left.
      replace ("ollama-fehler (" +:+ itoa status +:+ "): " +:+ a +:+ "terminated" +:+ b)
        with (("ollama-fehler (" +:+ itoa status +:+ "): " +:+ a) +:+ "terminated" +:+ b)
        by (rewrite !append_assoc; reflexivity).
      apply Contains_infix.
  - intros a b. exists ("ollama-anfrage fehlgeschlagen: " +:+ a +:+ "500" +:+ b).
    split; [reflexivity|].
    unfold is_crash. apply orb_true_iff. right.
    exact (Contains_infix ("ollama-anfrage fehlgeschlagen: " +:+ a) "500" b).
  - intros outcome resp. destruct outcome as [e|e|status body decoded]; cbn; try done.
    destruct (status =? 200) eqn:Hs; cbn; [|done]. apply Z.eqb_eq in Hs. subst status.
    destruct decoded as [[[response model] dn]|e]; [|done].
    intros [= <-]. by exists body.
Qed.

Lemma doGenerate_crash_signature_witness :
  exists e, doGenerate (HttpReply 503 ("runner " +:+ "terminated" +:+ "") (Err "EOF")) = Err e /\
            is_crash e = true.
Proof.
  destruct doGenerate_crash_signature as (_ & H & _).
  apply (H 503 "runner " "" (Err "EOF")). lia.
Defined.

(** ** The provider's model *)

Lemma model_listed_spec (models : list ModelInfo) (name : string) :
  model_listed models name = true <-> name ∈ mi_Name <$> models.
Proof.
  induction models as [|m rest IH]; cbn [model_listed fmap list_fmap].
  - split; [done|]. by intros ?%elem_of_nil.
  - rewrite elem_of_cons. destruct (decide (mi_Name m = name)) as [Heq|Hne].
    + split; [by left|done].
    + rewrite IH. split; [by right|]. by intros [?|?].
Qed.

(** X18. The provider built by [NewOllamaProvider] has a usable model.
    When the backend lists at least one model, the provider's model is one
    of the listed ones: the requested model if it is listed, the first
    listed model otherwise. When the listing fails or is empty, it is the
    requested model, or "qwen2.5:7b" if none was requested. So the model is
    a non-empty name unless the backend lists a model without a name. *)
Theorem NewOllamaProvider_model (url requested : string)
    (listing : result (list ModelInfo)) :
  let o := NewOllamaProvider url requested listing in
  let wanted := if decide (requested = "") then "qwen2.5:7b" else requested in
  (forall models, listing = Ok models -> models <> [] ->
     defaultModel o ∈ mi_Name <$> models /\
     (wanted ∈ mi_Name <$> models -> defaultModel o = wanted) /\
     (wanted ∉ mi_Name <$> models -> Some (defaultModel o) = mi_Name <$> head models)) /\
  ((forall models, listing = Ok models -> models = []) -> defaultModel o = wanted) /\
  ((forall models, listing = Ok models -> Forall (fun m => mi_Name m <> "") models) ->
   defaultModel o <> "").
Proof.
  cbn zeta. unfold NewOllamaProvider.
  set (wanted := if decide (requested = "") then "qwen2.5:7b" else requested).
  assert (Hw : wanted <> "") by (subst wanted; by case_decide).
  split; [|split].
  - intros models -> Hne. destruct models as [|m rest]; [done|].
    destruct (model_listed (m :: rest) wanted) eqn:Hl; cbn [defaultModel].
    + apply model_listed_spec in Hl. split; [done|]. split; [done|]. by intros ?.
    + split; [apply elem_of_cons; by left|]. split; [|done].
      intros Hin%model_listed_spec. congruence.
  - intros Hempty. destruct listing as [[|m rest]|e]; try done.
    by specialize (Hempty _ eq_refl).
  - intros Hnames. destruct listing as [[|m rest]|e]; try done.
    destruct (model_listed (m :: rest) wanted); [done|]. cbn [defaultModel].
    specialize (Hnames _ eq_refl). by apply Forall_cons in Hnames as [? _].
Qed.

Lemma NewOllamaProvider_model_witness :
  defaultModel (NewOllamaProvider "http://localhost:11434/" "qwen2.5:7b"
                  (Ok [mkModelInfo "llama3.2:3b" 2000000000; mkModelInfo "phi3" 1000000000]))
  ∈ ["llama3.2:3b"; "phi3"].
Proof.
  destruct (NewOllamaProvider_model "http://localhost:11434/" "qwen2.5:7b"
              (Ok [mkModelInfo "llama3.2:3b" 2000000000; mkModelInfo "phi3" 1000000000]))
    as (H & _ & _).
  apply (H [mkModelInfo "llama3.2:3b" 2000000000; mkModelInfo "phi3" 1000000000]);
    [reflexivity|discriminate].
Defined.


(** ** The consumer of the stream *)

(** X20. [Handler.ChatStream] forwards what the decoder emits without
    losing anything: it writes one message per chunk, in order, a content
    message for a content chunk and an error message for an error chunk.
    Its early return on an error skips no chunk, since the decoder emits
    nothing after an error. *)
Theorem ChatStream_forwards_all (steps : list decode_step) :
  ChatStream (Ok steps)
  = (fun c => match chunk_Error c with
              | Some e => MsgError e
              | None => MsgContent (chunk_Content c) (chunk_Done c)
              end) <$> stream_loop steps.
Proof.
  unfold ChatStream. cbn [GenerateStream fst].
  induction steps as [|st steps IH]; [done|].
  destruct st as [r d | | e]; cbn [stream_loop]; [|done|done].
  destruct d; [done|]. cbn [forward_chunks fmap list_fmap chunk_Error].
  by rewrite IH.
Qed.

(** ** The tutor's helpers *)

Lemma substring_full (s : string) : String.substring 0 (String.length s) s = s.
Proof. induction s as [|a s IH]; cbn; [done|]. by rewrite IH. Qed.

Lemma substring_split (s : string) : forall k,
  (k <= String.length s)%nat ->
  s = String.substring 0 k s +:+ String.substring k (String.length s - k) s.
Proof.
  induction s as [|a s IH]; intros [|k] Hk; cbn in *; try done; try lia.
  - by rewrite substring_full.
  - by rewrite <- IH by lia.
Qed.


(** X22. [limitContent] returns a text within the limit unchanged. A
    longer text is cut to its first [maxLen] bytes and the 19 bytes of the
    marker are appended, so the result has [maxLen + 19] bytes: it is longer
    than the limit, and longer than the text itself when the text exceeds
    the limit by fewer than 19 bytes. With a negative limit it panics. *)
Theorem limitContent_spec (content : string) (maxLen : Z) :
  (maxLen < 0 -> limitContent content maxLen = Panics "slice bounds out of range") /\
  (len content <= maxLen -> limitContent content maxLen = Returns content) /\
  (0 <= maxLen < len content ->
   exists r,
     limitContent content maxLen = Returns r /\
     r = slice content 0 maxLen +:+ shortened_marker /\
     len r = maxLen + 19 /\
     (len content < maxLen + 19 -> len content < len r)).
Proof.
  assert (H0 : 0 <= len content) by (unfold len; lia).
  unfold limitContent, slice_checked. split; [|split].
  - intros Hneg. replace (len content <=? maxLen) with false
      by (symmetry; apply Z.leb_gt; lia).
    replace (0 <=? maxLen) with false by (symmetry; apply Z.leb_gt; lia).
    by rewrite andb_false_r.
  - intros Hle. by replace (len content <=? maxLen) with true
      by (symmetry; apply Z.leb_le; lia).
  - intros [Hnn Hlt]. replace (len content <=? maxLen) with false
      by (symmetry; apply Z.leb_gt; lia).
    replace (0 <=? 0) with true by done.
    replace (0 <=? maxLen) with true by (symmetry; apply Z.leb_le; lia).
    replace (maxLen <=? len content) with true by (symmetry; apply Z.leb_le; lia).
    cbn [andb]. eexists. split; [reflexivity|]. split; [reflexivity|].
    assert (Hr : len (slice content 0 maxLen +:+ shortened_marker) = maxLen + 19).
    { rewrite len_append. change (len shortened_marker) with 19.
      unfold slice, len in *. rewrite substring_prefix_length. lia. }
    split; [exact Hr|]. lia.
Qed.

Lemma limitContent_spec_witness :
  exists r, limitContent "Analysis I" 8 = Returns r /\ len r = 27.
Proof.
  destruct (limitContent_spec "Analysis I" 8) as (_ & _ & H).
  destruct H as (r & Hr & _ & Hlen & _); [vm_compute; split; [discriminate|reflexivity]|].
  exists r. split; [exact Hr|exact Hlen].
Defined.

(** X23. [parseQuestionsFromResponse] either passes on the decoder's
    error, or returns one question per decoded entry, in order, each with
    the given topic and difficulty, with the text, expected answer and hints
    of its entry, and with a type that is never empty: an entry without a
    type becomes an "open" question. *)
Theorem parseQuestionsFromResponse_spec (T : TutorEnv) (response topicID : string)
    (difficulty : Z) :
  match unmarshalQuestions T (extractJSON response) with
  | Err e => parseQuestionsFromResponse T response topicID difficulty = Err e
  | Ok raws =>
      exists qs,
        parseQuestionsFromResponse T response topicID difficulty = Ok qs /\
        length qs = length raws /\
        (forall i q, qs !! i = Some q ->
           exists raw,
             raws !! i = Some raw /\
             q_TopicID q = topicID /\ q_Difficulty q = difficulty /\
             q_Question q = rq_Question raw /\
             q_ExpectedAnswer q = rq_ExpectedAnswer raw /\
             q_Hints q = rq_Hints raw /\
             q_Type q <> "" /\
             (rq_Type raw <> "" -> q_Type q = rq_Type raw) /\
             (rq_Type raw = "" -> q_Type q = "open"))
  end.
Proof.
  unfold parseQuestionsFromResponse. cbv zeta.
  destruct (unmarshalQuestions T (extractJSON response)) as [raws|e]; [|done].
  eexists. split; [reflexivity|]. split; [apply length_imap|].
  intros i q Hq. rewrite list_lookup_imap in Hq.
  destruct (raws !! i) as [raw|]; [|done]. cbn in Hq. injection Hq as <-.
  exists raw. cbn. repeat split; try done; case_decide; done.
Qed.

Lemma parseQuestionsFromResponse_spec_witness :
  exists qs, parseQuestionsFromResponse tutor0 "{}" "topic_1" 2 = Ok qs /\
             length qs = 1%nat.
Proof.
  pose proof (parseQuestionsFromResponse_spec tutor0 "{}" "topic_1" 2) as H.
  cbn [tutor0 unmarshalQuestions] in H. destruct H as (qs & Hqs & Hlen & _).
  exists qs. split; [exact Hqs|exact Hlen].
Defined.

(** ** Answers *)

Lemma EvaluateAnswer_unfold (T : TutorEnv) (w : World) question answer doc :
  3 <= len (TrimSpace T answer) ->
  EvaluateAnswer T w question answer doc
  = let pg := ProviderGenerate (tutor_Env T) w
                (evaluatePrompt T (q_Question question) (q_ExpectedAnswer question) answer)
                (Some (mkOptions ""
                   "Du bist ein FAIRER Prüfer. Akzeptiere Antworten wenn die Kernidee stimmt. ABER: Leere, zu kurze oder völlig falsche Antworten sind FALSCH. Tippfehler ignorieren. JSON-Format.")) in
    (match fst pg with
     | Err e => (false, "", Some e)
     | Ok resp =>
         match unmarshalEvaluation T (extractJSON (resp_Content resp)) with
         | Err _ => (Contains (ToLower (tutor_Env T) (resp_Content resp)) "richtig",
                     resp_Content resp, None)
         | Ok (isCorrect, feedback) => (isCorrect, feedback, None)
         end
     end, snd pg).
Proof.
  intros Hlen. unfold EvaluateAnswer.
  replace (len (TrimSpace T answer) <? 3) with false by (symmetry; apply Z.ltb_ge; lia).
  cbv zeta. destruct (ProviderGenerate _ _ _ _) as [[resp|e] w']; cbn [fst snd]; [|done].
  destruct (unmarshalEvaluation T _) as [[? ?]|?]; done.
Qed.



(** ** The study plan *)

Lemma wrap_int_add (a b : Z) : wrap_int (wrap_int a + b) = wrap_int (a + b).
Proof.
  unfold wrap_int. f_equal.
  replace ((a + 2 ^ 63) mod 2 ^ 64 - 2 ^ 63 + b + 2 ^ 63)
    with ((a + 2 ^ 63) mod 2 ^ 64 + b) by lia.
  replace (a + b + 2 ^ 63) with ((a + 2 ^ 63) + b) by lia.
  apply Zplus_mod_idemp_l.
Qed.

Lemma foldl_minutes (topics : list Topic) : forall acc,
  foldl (fun total topic => wrap_int (total + topic_EstMinutes topic)) (wrap_int acc) topics
  = wrap_int (acc + foldr Z.add 0 (topic_EstMinutes <$> topics)).
Proof.
  induction topics as [|t ts IH]; intros acc; cbn; [by rewrite Z.add_0_r|].
  rewrite wrap_int_add, IH. f_equal. lia.
Qed.

Lemma imap_const_seq {A B} (l : list A) : forall (f : nat -> B),
  imap (fun n (_ : A) => f n) l = f <$> seq 0 (length l).
Proof.
  induction l as [|t l IH]; intros f; [done|].
  rewrite imap_cons. cbn [length seq fmap list_fmap]. f_equal.
  rewrite <- fmap_S_seq, <- list_fmap_compose. apply (IH (f ∘ S)).
Qed.

(** X25. [CreateStudyPlan] always returns, with a nil error: the days left
    are raised to at least one before the division, so that it cannot be by
    zero. The plan keeps the topics in the order given: it has as many
    topics as the input; the topic at position [i] keeps its name,
    description, content, difficulty and estimate, is numbered [i + 1], is
    "pending" and belongs to the plan. The plan's total is the sum of the
    estimates in 64-bit arithmetic, whatever the number of days left. *)
Theorem CreateStudyPlan_spec (planID planName : string) (topicID : nat -> string)
    (days : Z) (topics : list Topic) :
  exists plan,
    CreateStudyPlan planID planName topicID days topics = Returns (plan, None) /\
    plan_ID plan = planID /\ plan_Status plan = "active" /\
    plan_TotalMinutes plan = wrap_int (foldr Z.add 0 (topic_EstMinutes <$> topics)) /\
    length (plan_Topics plan) = length topics /\
    topic_Order <$> plan_Topics plan = (fun i => Z.of_nat i + 1) <$> seq 0 (length topics) /\
    (forall i t', plan_Topics plan !! i = Some t' ->
       exists t,
         topics !! i = Some t /\
         topic_Name t' = topic_Name t /\ topic_Description t' = topic_Description t /\
         topic_Content t' = topic_Content t /\
         topic_Difficulty t' = topic_Difficulty t /\
         topic_EstMinutes t' = topic_EstMinutes t /\
         topic_Order t' = Z.of_nat i + 1 /\
         topic_Status t' = "pending" /\ topic_StudyPlanID t' = planID /\
         topic_ID t' = topicID i).
Proof.
  unfold CreateStudyPlan, int_div. cbv zeta.
  assert (Hd : ((if days <? 1 then 1 else days) =? 0) = false).
  { destruct (days <? 1) eqn:H; [done|]. apply Z.ltb_ge in H. apply Z.eqb_neq. lia. }
  rewrite Hd. eexists. split; [reflexivity|].
  cbn [plan_TotalMinutes plan_Topics plan_ID plan_Status].
  split; [done|]. split; [done|]. split.
  { change 0 with (wrap_int 0) at 1. by rewrite foldl_minutes. }
  split; [apply length_imap|]. split.
  - rewrite fmap_imap. apply (imap_const_seq topics (fun i => Z.of_nat i + 1)).
  - intros i t' Ht'. rewrite list_lookup_imap in Ht'.
    destruct (topics !! i) as [t|]; [|done]. cbn in Ht'. injection Ht' as <-.
    exists t. cbn. by repeat split.
Qed.

(** ** The tutor's own analysis *)

(** X26. The budget per document of the tutor's own analysis is always
    between 2000 and 8000 bytes: 8000 for up to three documents, the
    quotient 30000 / n for four to fifteen, and 2000 from fifteen documents
    on, where the budgets together exceed the 30000 bytes that end the
    loop. *)
Theorem charsPerDoc_spec (n : Z) :
  2000 <= charsPerDoc n <= 8000 /\
  (n <= 3 -> charsPerDoc n = 8000) /\
  (4 <= n <= 15 -> charsPerDoc n = Z.quot 30000 n) /\
  (15 <= n -> charsPerDoc n = 2000).
Proof.
  unfold charsPerDoc. cbv zeta.
  assert (Hclamp : forall c,
            2000 <= (if (if 8000 <? c then 8000 else c) <? 2000 then 2000
                     else if 8000 <? c then 8000 else c) <= 8000).
  { intros c. destruct (8000 <? c) eqn:H1; [cbn; lia|].
    apply Z.ltb_ge in H1. destruct (c <? 2000) eqn:H2; [lia|]. apply Z.ltb_ge in H2. lia. }
  split; [apply Hclamp|]. split; [|split].
  - intros Hn. assert (Hc : Z.max n 1 = 1 \/ Z.max n 1 = 2 \/ Z.max n 1 = 3) by lia.
    destruct Hc as [-> | [-> | ->]]; reflexivity.
  - intros Hn. replace (Z.max n 1) with n by lia.
    assert (Hc : n = 4 \/ n = 5 \/ n = 6 \/ n = 7 \/ n = 8 \/ n = 9 \/ n = 10 \/
                 n = 11 \/ n = 12 \/ n = 13 \/ n = 14 \/ n = 15) by lia.
    repeat (destruct Hc as [-> | Hc]; [reflexivity|]). subst n. reflexivity.
  - intros Hn. replace (Z.max n 1) with n by lia.
    assert (Hq : 0 <= Z.quot 30000 n <= 2000).
    { rewrite Z.quot_div_nonneg by lia. split; [apply Z.div_pos; lia|].
      apply Z.div_le_upper_bound; lia. }
    replace (8000 <? Z.quot 30000 n) with false by (symmetry; apply Z.ltb_ge; lia).
    destruct (Z.quot 30000 n <? 2000) eqn:H2; [done|]. apply Z.ltb_ge in H2. lia.
Qed.

Lemma charsPerDoc_spec_witness :
  charsPerDoc 2 = 8000 /\ charsPerDoc 7 = 4285 /\ charsPerDoc 40 = 2000.
Proof.
  split; [|split].
  - apply (charsPerDoc_spec 2). lia.
  - rewrite (proj1 (proj2 (proj2 (charsPerDoc_spec 7)))) by lia. reflexivity.
  - apply (charsPerDoc_spec 40). lia.
Defined.

Lemma len_nonneg (s : string) : 0 <= len s.
Proof. unfold len. lia. Qed.

Lemma append_nil_r (s : string) : s +:+ "" = s.
Proof. induction s as [|a s IH]; [done|]. cbn. by rewrite IH. Qed.

Lemma combineContents_sections (perDoc : Z) (docs : list Document) : forall acc,
  len acc <= 30000 ->
  exists k,
    (k <= length docs)%nat /\
    combineContents perDoc acc docs = acc +:+ doc_sections perDoc (take k docs) /\
    (forall j, (j < k)%nat -> len (acc +:+ doc_sections perDoc (take j docs)) <= 30000) /\
    ((k < length docs)%nat -> 30000 < len (acc +:+ doc_sections perDoc (take k docs))).
Proof.
  induction docs as [|doc docs IH]; intros acc Hacc.
  - exists 0%nat. cbn. rewrite append_nil_r. split; [lia|]. split; [done|]. split; intros; lia.
  - cbn [combineContents]. cbv zeta. fold (doc_section perDoc doc).
    destruct (30000 <? len (acc +:+ doc_section perDoc doc)) eqn:Hlt.
    + apply Z.ltb_lt in Hlt. exists 1%nat. cbn [length take doc_sections foldr].
      rewrite take_0. cbn [foldr]. rewrite append_nil_r.
      split; [lia|]. split; [done|]. split.
      * intros j Hj. replace j with 0%nat by lia. cbn. by rewrite append_nil_r.
      * by intros _.
    + apply Z.ltb_ge in Hlt. destruct (IH _ Hlt) as (k & Hk & Heq & Hbefore & Hafter).
      exists (S k). cbn [length take doc_sections foldr]. fold (doc_sections perDoc (take k docs)).
      split; [lia|]. split; [by rewrite Heq, append_assoc|]. split.
      * intros [|j] Hj; [cbn; by rewrite append_nil_r|].
        cbn [take doc_sections foldr]. fold (doc_sections perDoc (take j docs)).
        rewrite <- append_assoc. apply Hbefore. lia.
      * intros Hlen. rewrite <- append_assoc. apply Hafter. lia.
Qed.

Lemma doc_section_len (perDoc : Z) (doc : Document) :
  2000 <= perDoc -> 2000 <= len (doc_Content doc) ->
  2020 <= len (doc_section perDoc doc).
Proof.
  intros Hp Hc. unfold doc_section. rewrite !len_append.
  pose proof (len_nonneg (doc_Name doc)).
  change (len newline) with 1. change (len "=== Dokument: ") with 14.
  change (len " ===") with 4.
  destruct (perDoc <? len (doc_Content doc)) eqn:Hlt; [|lia].
  apply Z.ltb_lt in Hlt. rewrite len_append.
  pose proof (len_nonneg shortened_marker).
  assert (len (slice (doc_Content doc) 0 perDoc) = perDoc); [|lia].
  unfold slice, len. rewrite Z.sub_0_r. change (Z.to_nat 0) with 0%nat.
  rewrite substring_prefix_length. unfold len in Hlt. lia.
Qed.

Lemma doc_sections_len (perDoc : Z) (docs : list Document) :
  2000 <= perDoc -> Forall (fun d => 2000 <= len (doc_Content d)) docs ->
  2020 * Z.of_nat (length docs) <= len (doc_sections perDoc docs).
Proof.
  intros Hp. induction 1 as [|d docs Hd _ IH]; [done|].
  cbn [doc_sections foldr length]. fold (doc_sections perDoc docs).
  rewrite len_append. pose proof (doc_section_len perDoc d Hp Hd). lia.
Qed.

(** X28. The text the tutor's own analysis puts into its prompt is made of
    the sections (header line, then the text cut to the budget) of the
    first [k] documents, for some [k]: the documents after the first that
    takes the text past 30000 bytes are left out without a trace. Before
    the last section the text was within 30000 bytes; when a document is
    left out the text is longer than 30000 bytes. When every document has
    at least 2000 bytes, at most fifteen documents reach the prompt, however
    many there are. *)
Theorem combineContents_prefix (n : Z) (docs : list Document) :
  exists k,
    (k <= length docs)%nat /\
    combineContents (charsPerDoc n) "" docs = doc_sections (charsPerDoc n) (take k docs) /\
    (forall j, (j < k)%nat -> len (doc_sections (charsPerDoc n) (take j docs)) <= 30000) /\
    ((k < length docs)%nat -> 30000 < len (doc_sections (charsPerDoc n) (take k docs))) /\
    (Forall (fun d => 2000 <= len (doc_Content d)) docs -> (k <= 15)%nat).
Proof.
  assert (H0 : len "" <= 30000) by (vm_compute; discriminate).
  destruct (combineContents_sections (charsPerDoc n) docs "" H0)
    as (k & Hk & Heq & Hbefore & Hafter).
  exists k. split; [done|]. split; [exact Heq|]. split; [exact Hbefore|].
  split; [exact Hafter|].
  intros Hbig. destruct (decide (k <= 15)%nat) as [|Hgt]; [done|]. exfalso.
  assert (Hj : (15 < k)%nat) by lia. specialize (Hbefore 15%nat Hj).
  change ("" +:+ ?s) with s in Hbefore.
  assert (Hp : 2000 <= charsPerDoc n).
  { unfold charsPerDoc. cbv zeta. destruct (_ <? 2000) eqn:H; [lia|]. by apply Z.ltb_ge in H. }
  pose proof (doc_sections_len (charsPerDoc n) (take 15 docs) Hp
                (Forall_take _ 15%nat _ Hbig)) as Hlen.
  rewrite length_take in Hlen. lia.
Qed.

Lemma Tutor_AnalyzeDocuments_unfold (T : TutorEnv) (w : World) (documents : list Document) :
  let E := tutor_Env T in
  let uniqueDocs := deduplicateDocuments documents in
  let mainDocs := filter (fun d => isExamName E d = false) uniqueDocs in
  let docs := if decide (length mainDocs = 0%nat) then uniqueDocs else mainDocs in
  let prompt :=
    tutorAnalyzePrompt T
      (combineContents (charsPerDoc (Z.of_nat (length docs))) "" docs) in
  Tutor_AnalyzeDocuments T false None w documents
  = (Returns
       match fst (ProviderGenerate E w prompt tutorAnalyzeOptions) with
       | Err e => ([], Some e)
       | Ok resp =>
           match parseTopicsFromResponse (unmarshalTopics E) (resp_Content resp) with
           | Err e => ([], Some ("konnte Themen nicht parsen: " +:+ e))
           | Ok topics => (topics, None)
           end
       end,
     {| provider := provider w;
        history := history w ++ [(GetCurrentModel (provider w), prompt)] |}).
Proof.
  cbv zeta. unfold Tutor_AnalyzeDocuments.
  pose proof (categorize_fold (tutor_Env T) (deduplicateDocuments documents) [] []) as Hcat.
  cbn [app] in Hcat. unfold categorizeDocuments. rewrite Hcat. clear Hcat.
  fold tutorAnalyzeOptions.
  match goal with
  | |- context [ProviderGenerate ?E ?w1 ?p ?opts] =>
      pose proof (ProviderGenerate_world E w1 p opts) as Hw;
      destruct (ProviderGenerate E w1 p opts) as [r w']
  end.
  cbn [fst snd] in *. subst w'.
  destruct r as [resp|e]; [|done]. by destruct (parseTopicsFromResponse _ _).
Qed.


